(** * localParDo: the ParDo transform builder of the TypeScript SDK

    A shallow embedding of
    [sdks/typescript/src/apache_beam/transforms/localParDo.ts].

    The file builds one pipeline-graph node.  Its code relies on a handful
    of JavaScript object operations (prototype-based [Object.create],
    property assignment, [delete], [instanceof], [typeof],
    [Object.entries], object spread), so the first part of the development
    is a small object heap with prototype chains; the second part embeds the
    functions of the file over that heap; the third part states and proves
    the properties.

    Conventions of the embedding
    - a JavaScript string is a [string] holding the bytes of its
      (generalised) UTF-8 form; its characters are its UTF-16 code units;
    - a number is an integer [Z] (the file never computes with numbers);
    - an object has enumerable data properties only; accessor properties
      are outside the model.  The embedding of the file comes twice: first
      on heaps where every property is writable and every object
      extensible, as the objects the file creates are; then, in [Strict],
      with the attributes of the caller's objects, where an assignment can
      throw.  The two agree on contexts whose keys can be assigned;
    - a declared class field without initialiser ([provider],
      [sideInputId]) creates no own property, as with the compiler's
      classic field emit;
    - objects are allocated at increasing locations. *)

From Stdlib Require Import ZArith Ascii String DecimalString.
From Stdlib.Strings Require Import Byte.
From Stdlib Require DecimalNat DecimalFacts.
From stdpp Require Import base option list sorting gmap strings.

Local Open Scope string_scope.
Local Open Scope list_scope.
Local Open Scope nat_scope.

(** ** JavaScript values and the object heap *)

Module JS.

Abbreviation loc := nat.

Inductive value :=
  | VUndefined
  | VNull
  | VBool (b : bool)
  | VNumber (z : Z)
  | VString (s : string)
  | VRef (l : loc).

#[global] Instance value_eq_dec : EqDecision value.
Proof. solve_decision. Defined.

(** The element encoders the file knows about: it only ever names
    [GeneralObjectCoder]. *)
Inductive Coder :=
  | GeneralObjectCoder
  | OtherCoder (name : string).

(** Modelled from the spec: the class [PCollection] lives in [../pvalue],
    not under src/; the data model describes a dataset handle as an opaque
    identifier, its owning pipeline and its element encoder, immutable once
    created.  Besides its properties an object is thus an ordinary object,
    a function, or such a handle. *)
Inductive internal :=
  | IOrdinary
  | IFunction
  | IPCollection (id : string) (pipeline : loc) (coder : Coder).

Record object := Object {
  proto : option loc;                  (* [[Prototype]], [None] for null *)
  props : list (string * value);       (* own properties, in creation order *)
  slot  : internal;
}.

Abbreviation heap := (list object).

(** [typeof v] *)
Definition typeof (h : heap) (v : value) : string :=
  match v with
  | VUndefined => "undefined"
  | VNull => "object"
  | VBool _ => "boolean"
  | VNumber _ => "number"
  | VString _ => "string"
  | VRef l =>
      match slot <$> h !! l with
      | Some IFunction => "function"
      | _ => "object"
      end
  end.

(** Truthiness, as used by [if (x)] and [x || y]. *)
Definition truthy (v : value) : bool :=
  match v with
  | VUndefined | VNull => false
  | VBool b => b
  | VNumber z => negb (z =? 0)%Z
  | VString s => negb (String.eqb s "")
  | VRef _ => true
  end.

(** *** Own properties *)

Fixpoint own_lookup (k : string) (ps : list (string * value)) : option value :=
  match ps with
  | [] => None
  | (k', v) :: ps' => if String.eqb k' k then Some v else own_lookup k ps'
  end.

(** Defining or overwriting an own data property: an existing key keeps
    its place, a new key is created last. *)
Fixpoint own_set (k : string) (v : value) (ps : list (string * value))
  : list (string * value) :=
  match ps with
  | [] => [(k, v)]
  | (k', v') :: ps' =>
      if String.eqb k' k then (k', v) :: ps' else (k', v') :: own_set k v ps'
  end.

Fixpoint own_delete (k : string) (ps : list (string * value))
  : list (string * value) :=
  match ps with
  | [] => []
  | (k', v') :: ps' =>
      if String.eqb k' k then own_delete k ps' else (k', v') :: own_delete k ps'
  end.

(** A property key that is an array index: the canonical decimal
    spelling of an integer below [2^32 - 1]. *)
Definition array_index (s : string) : option N :=
  match NilZero.uint_of_string s with
  | Some u =>
      let n := N.of_uint u in
      if String.eqb (NilZero.string_of_uint (N.to_uint n)) s && (n <? 4294967295)%N
      then Some n else None
  | None => None
  end.

Definition index_of (e : string * value) : N := default 0%N (array_index e.1).

Definition is_index (e : string * value) : Prop := is_Some (array_index e.1).

(** Insertion of an entry among entries sorted by index. *)
Fixpoint insert_entry (e : string * value) (l : list (string * value))
  : list (string * value) :=
  match l with
  | [] => [e]
  | e' :: l' =>
      if (index_of e <=? index_of e')%N then e :: l else e' :: insert_entry e l'
  end.

Definition sort_entries (l : list (string * value)) : list (string * value) :=
  foldr insert_entry [] l.

(** The order in which the own keys of an object are enumerated: array
    indices first, ascending, then the other keys in creation order. *)
Definition own_entries (ps : list (string * value)) : list (string * value) :=
  sort_entries (filter is_index ps) ++ filter (λ e, ¬ is_index e) ps.

(** [Object.entries(v)] on an object reference. *)
Definition entries (h : heap) (l : loc) : list (string * value) :=
  match h !! l with
  | Some o => own_entries (props o)
  | None => []
  end.

(** *** The prototype chain *)

(** [o[k]]: the own property if there is one, else the prototype's.  A
    prototype is always an older object than its heirs, so [n] steps
    suffice from location [n]. *)
Fixpoint get_from (n : nat) (h : heap) (l : loc) (k : string) : value :=
  match h !! l with
  | None => VUndefined
  | Some o =>
      match own_lookup k (props o) with
      | Some v => v
      | None =>
          match proto o, n with
          | Some p, S n' => get_from n' h p k
          | _, _ => VUndefined
          end
      end
  end.

Definition get (h : heap) (l : loc) (k : string) : value := get_from l h l k.

(** Is [p] on the prototype chain of [l] (starting at [l]'s prototype)? *)
Fixpoint chain_has (n : nat) (h : heap) (l p : loc) : bool :=
  match h !! l with
  | None => false
  | Some o =>
      match proto o, n with
      | Some q, S n' => (q =? p) || chain_has n' h q p
      | Some q, O => (q =? p)
      | None, _ => false
      end
  end.

(** [v instanceof C], where [p] is [C.prototype]. *)
Definition instanceof (h : heap) (v : value) (p : loc) : bool :=
  match v with
  | VRef l => chain_has l h l p
  | _ => false
  end.

(** *** Heap updates *)

Definition alloc (h : heap) (o : object) : heap * loc := (h ++ [o], length h).

(** [Object.create(p)] *)
Definition object_create (h : heap) (p : option loc) : heap * loc :=
  alloc h (Object p [] IOrdinary).

(** [o[k] = v] where nothing refuses the assignment (every property
    writable, the receiver extensible; [Strict.assign] has the general
    case): the property becomes an own property of the receiver. *)
Definition set_prop (h : heap) (l : loc) (k : string) (v : value) : heap :=
  match h !! l with
  | Some o => <[l := Object (proto o) (own_set k v (props o)) (slot o)]> h
  | None => h
  end.

(** [delete o[k]] *)
Definition delete_prop (h : heap) (l : loc) (k : string) : heap :=
  match h !! l with
  | Some o => <[l := Object (proto o) (own_delete k (props o)) (slot o)]> h
  | None => h
  end.

(** *** Well-formed heaps

    What every heap built by a JavaScript program satisfies: a prototype
    is older than its heirs, a stored reference points to an allocated
    object, and the own keys of an object are pairwise distinct. *)

Definition allocated (n : nat) (v : value) : Prop :=
  match v with
  | VRef l => l < n
  | _ => True
  end.

#[global] Instance allocated_dec n v : Decision (allocated n v).
Proof. destruct v; simpl; apply _. Defined.

Definition object_wf (n : nat) (l : loc) (o : object) : Prop :=
  from_option (λ p, p < l) True (proto o)
  ∧ Forall (λ e, allocated n e.2) (props o)
  ∧ NoDup (props o).*1.

#[global] Instance object_wf_dec n l o : Decision (object_wf n l o).
Proof. unfold object_wf. destruct (proto o); simpl; apply _. Defined.

Definition heap_wf (h : heap) : Prop :=
  ∀ l o, h !! l = Some o → object_wf (length h) l o.

(** The first of the three conditions alone. *)
Definition protos_wf (h : heap) : Prop :=
  ∀ l o p, h !! l = Some o → proto o = Some p → p < l.

(** Entries sorted by index. *)
Definition sorted_entries (l : list (string * value)) : Prop :=
  Sorted (λ e1 e2, (index_of e1 <= index_of e2)%N) l.

(** Well-formedness as a check that runs. *)
Definition heap_wfb (h : heap) : bool :=
  forallb (λ lo, bool_decide (object_wf (length h) lo.1 lo.2)) (imap pair h).

End JS.

(** ** The portable pipeline representation

    The records of [../proto/beam_runner_api] that the file reads or
    builds, with the fields it touches. *)

Module runnerApi.

Record FunctionSpec := mkFunctionSpec {
  urn : string;
  payload : list byte;
}.

(** [runnerApi.PCollection], the registered description of a dataset. *)
Record PCollection := mkPCollection {
  windowingStrategyId : string;
}.

Record WindowingStrategy := mkWindowingStrategy {
  windowFn : option FunctionSpec;
}.

(** The registered datasets and windowing strategies.  What a lookup
    answers for an id that is not registered is said where the lookup is
    embedded: nothing in the first embedding, and in [Strict] the member of
    [Object.prototype] that the id may name. *)
Record Components := mkComponents {
  pcollections : gmap string PCollection;
  windowingStrategies : gmap string WindowingStrategy;
}.

(** The three object literals that make up one entry of [sideInputs].
    The first takes its urn from the accessor object, whatever value it
    holds; the last is written with a field [value] where the other two
    have [payload]. *)
Record AccessPattern := mkAccessPattern {
  ap_urn : JS.value;
  ap_payload : list byte;
}.

Record WindowMappingFn := mkWindowMappingFn {
  wm_urn : string;
  wm_value : list byte;
}.

Record SideInput := mkSideInput {
  accessPattern : AccessPattern;
  viewFn : FunctionSpec;
  windowMappingFn : WindowMappingFn;
}.

Record ParDoPayload := mkParDoPayload {
  doFn : FunctionSpec;
  sideInputs : gmap string SideInput;
}.

(** [runnerApi.PTransform], the transform descriptor under construction. *)
Record PTransform := mkPTransform {
  inputs : gmap string string;
  outputs : gmap string string;
  spec : option FunctionSpec;
}.

End runnerApi.

(** ** Exceptions and the expansion monad *)

Inductive error :=
  | TypeError                 (* a property read on undefined or null, a call of a non-function *)
  | Error (msg : string).     (* [new Error(msg)] *)

Inductive result (A : Type) :=
  | Ok (a : A)
  | Throw (e : error).
Arguments Ok {A} a.
Arguments Throw {A} e.

(** The pipeline an expansion runs against: its identity, its component
    registry ([pipeline.context.components]) and its name counter. *)
Record Pipeline := mkPipeline {
  self : nat;
  components : runnerApi.Components;
  counter : nat;
}.

(** Everything an expansion can read or write: the object heap, and the
    two mutable arguments of [expandInternal]. *)
Record state := mkState {
  st_heap : list JS.object;
  pipeline : Pipeline;
  transformProto : runnerApi.PTransform;
}.

Definition M (A : Type) : Type := state → state * result A.

#[global] Instance M_ret : MRet M := λ A a st, (st, Ok a).
#[global] Instance M_bind : MBind M := λ A B f m st,
  match m st with
  | (st', Ok a) => f a st'
  | (st', Throw e) => (st', Throw e)
  end.

Definition throw {A} (e : error) : M A := λ st, (st, Throw e).
Definition lift {A} (r : result A) : M A := λ st, (st, r).
Definition gets {A} (f : state → A) : M A := λ st, (st, Ok (f st)).
Definition modify (f : state → state) : M unit := λ st, (f st, Ok tt).

Definition with_heap (f : JS.heap → JS.heap) (st : state) : state :=
  mkState (f (st_heap st)) (pipeline st) (transformProto st).

Definition with_inputs (f : gmap string string → gmap string string)
    (st : state) : state :=
  let t := transformProto st in
  mkState (st_heap st) (pipeline st)
    (runnerApi.mkPTransform (f (runnerApi.inputs t)) (runnerApi.outputs t)
       (runnerApi.spec t)).

Definition with_spec (s : runnerApi.FunctionSpec) (st : state) : state :=
  let t := transformProto st in
  mkState (st_heap st) (pipeline st)
    (runnerApi.mkPTransform (runnerApi.inputs t) (runnerApi.outputs t) (Some s)).

(** [for (const x of l) body], threading the loop's local state [acc]. *)
Fixpoint for_of {A B} (l : list A) (acc : B) (body : A → B → M B) : M B :=
  match l with
  | [] => mret acc
  | x :: l' => acc' ← body x acc; for_of l' acc' body
  end.

(** Computations that only touch the heap and the descriptor's inputs:
    the pipeline, and the descriptor's outputs and spec, stay as they were. *)
Definition frames {X} (m : M X) : Prop :=
  ∀ st, pipeline (m st).1 = pipeline st
        ∧ runnerApi.outputs (transformProto (m st).1)
          = runnerApi.outputs (transformProto st)
        ∧ runnerApi.spec (transformProto (m st).1)
          = runnerApi.spec (transformProto st).

(** ** Property access on arbitrary values *)

Import JS.

(** [v[k]] for the keys the file reads ([pcoll], [accessor],
    [accessPattern], [provider]): a [TypeError] on undefined and null,
    undefined on the other primitives. *)
Definition get_prop (h : heap) (v : value) (k : string) : result value :=
  match v with
  | VUndefined | VNull => Throw TypeError
  | VRef l => Ok (get h l k)
  | VBool _ | VNumber _ | VString _ => Ok VUndefined
  end.

(** [Object.create(v)]: the prototype must be an object or null. *)
Definition Object_create (h : heap) (v : value) : result (heap * loc) :=
  match v with
  | VRef l => Ok (alloc h (Object (Some l) [] IOrdinary))
  | VNull => Ok (alloc h (Object None [] IOrdinary))
  | _ => Throw TypeError
  end.

(** [Object.entries(v)] for a value whose [typeof] is ["object"]. *)
Definition Object_entries (h : heap) (v : value)
  : result (list (string * value)) :=
  match v with
  | VUndefined | VNull => Throw TypeError
  | VRef l => Ok (entries h l)
  | _ => Ok []
  end.

(** Modelled from the spec: [PCollection.getId] lives in [../pvalue], not
    under src/; a dataset handle carries an opaque identifier, which
    [getId] returns.  Calling it on anything else is a [TypeError]. *)
Definition getId (h : heap) (v : value) : result string :=
  match v with
  | VRef l =>
      match slot <$> h !! l with
      | Some (IPCollection id _ _) => Ok id
      | _ => Throw TypeError
      end
  | _ => Throw TypeError
  end.

(** ** The classes of the file

    The prototype objects that the class declarations create when the
    module is loaded.  Methods are embedded as functions below, not as
    properties. *)

Definition Object_prototype : loc := 0.
Definition ParDoParam_prototype : loc := 1.
Definition ParDoLookupParam_prototype : loc := 2.
Definition ParDoUpdateParam_prototype : loc := 3.
Definition SideInputParam_prototype : loc := 4.

Definition module_heap : heap :=
  [ Object None [] IOrdinary;
    Object (Some Object_prototype) [] IOrdinary;
    Object (Some ParDoParam_prototype) [] IOrdinary;
    Object (Some ParDoParam_prototype) [] IOrdinary;
    Object (Some ParDoLookupParam_prototype) [] IOrdinary ].

(** [new ParDoLookupParam(name)] and [new ParDoUpdateParam(name)]: the
    inherited constructor stores [parDoParamName]; [provider] is declared
    and left unset. *)
Definition new_ParDoParam (class_prototype : loc) (h : heap)
    (parDoParamName : string) : heap * loc :=
  let '(h1, this) := alloc h (Object (Some class_prototype) [] IOrdinary) in
  (set_prop h1 this "parDoParamName" (VString parDoParamName), this).

(** [new SideInputParam(pcoll, accessor)] *)
Definition new_SideInputParam (h : heap) (pcoll accessor : value)
    : heap * loc :=
  let '(h1, this) := new_ParDoParam SideInputParam_prototype h "sideInput" in
  let h2 := set_prop h1 this "pcoll" pcoll in
  let h3 := set_prop h2 this "accessor" accessor in
  (h3, this).

(** An object literal [{ k1: v1, ... }]. *)
Definition object_literal (h : heap) (ps : list (string * value))
    : heap * loc :=
  let '(h1, o) := alloc h (Object (Some Object_prototype) [] IOrdinary) in
  (fold_left (λ h' e, set_prop h' o e.1 e.2) ps h1, o).

(** ** copySideInputWithId *)

Definition copySideInputWithId (h : heap) (sideInput : value) (id : string)
    : result (heap * value) :=
  match Object_create h sideInput with
  | Ok (h1, copy) =>
      let h2 := set_prop h1 copy "sideInputId" (VString id) in
      let h3 := delete_prop h2 copy "pcoll" in
      Ok (h3, VRef copy)
  | Throw e => Throw e
  end.

(** ** localParDo *)

(** The parts of a [LocalDoFn] that the builder reads.  [process],
    [startBundle] and [finishBundle] are never called here; the optional
    default context is the property [beamPardoContextSpec]. *)
Record LocalDoFn := mkLocalDoFn {
  beamName : option string;
  exportName : string;
  beamPardoContextSpec : value;
}.

Definition extractContext (fn : LocalDoFn) : value := beamPardoContextSpec fn.

(** The same DoFn exported under another name. *)
Definition with_exportName (n : string) (fn : LocalDoFn) : LocalDoFn :=
  mkLocalDoFn (beamName fn) n (beamPardoContextSpec fn).

(** *** Strings

    A JavaScript string is a sequence of UTF-16 code units.  It is held
    as the bytes of its generalised UTF-8 form: a code point as its UTF-8
    sequence, a surrogate that has no partner as the three bytes the same
    scheme gives it ([ED A0..BF xx]). *)

Definition is_continuation (a : ascii) : bool :=
  (128 <=? N_of_ascii a)%N && (N_of_ascii a <? 192)%N.

(** The byte sequences of the code points of [s]: each byte that is not a
    continuation byte, with the continuation bytes that follow it. *)
Fixpoint code_points (s : string) : list string :=
  match s with
  | EmptyString => []
  | String a r =>
      match code_points r with
      | String b c :: cs =>
          if is_continuation b then String a (String b c) :: cs
          else String a "" :: String b c :: cs
      | cs => String a "" :: cs
      end
  end.

(** The three bytes of the surrogate code unit [u]. *)
Definition surrogate (u : N) : string :=
  String (ascii_of_N 237)
    (String (ascii_of_N (128 + (u / 64) mod 64))
       (String (ascii_of_N (128 + u mod 64)) "")).

Definition is_surrogate (c : string) : bool :=
  match c with
  | String a (String b (String _ EmptyString)) =>
      (N_of_ascii a =? 237)%N && (160 <=? N_of_ascii b)%N
  | _ => false
  end.

(** The UTF-16 code units of one code point, each as a string of its own:
    a code point above [U+FFFF] (four bytes) is a pair of surrogates. *)
Definition code_units (c : string) : list string :=
  match c with
  | String b0 (String b1 (String b2 (String b3 EmptyString))) =>
      if (240 <=? N_of_ascii b0)%N then
        let cp := ((N_of_ascii b0 mod 8) * 262144 + (N_of_ascii b1 mod 64) * 4096
                   + (N_of_ascii b2 mod 64) * 64 + N_of_ascii b3 mod 64)%N in
        let v := (cp - 65536)%N in
        [surrogate (55296 + v / 1024); surrogate (56320 + v mod 1024)]
      else [c]
  | _ => [c]
  end.

(** The characters [s[0]], [s[1]], ... of a string. *)
Definition characters (s : string) : list string :=
  code_points s ≫= code_units.

(** A string without lone surrogates. *)
Definition well_formed (s : string) : bool :=
  forallb (λ c, negb (is_surrogate c)) (code_points s).

(** [new TextEncoder().encode(s)]: the UTF-8 bytes of [s], a lone
    surrogate being encoded as [U+FFFD]. *)
Definition TextEncoder_encode (s : string) : list byte :=
  code_points s ≫=
    λ c, if is_surrogate c then ["239"; "191"; "189"]%byte
         else list_byte_of_string c.

(** [new Uint8Array()] *)
Definition Uint8Array_empty : list byte := [].

(** Modelled from the spec: [Pipeline.createPCollectionInternal] lives in
    [../internal/pipeline], not under src/; the builder's last step
    allocates a new output dataset handle bound to the pipeline, with the
    encoder it is given.  The identifier is opaque: here the spelling of the
    pipeline's name counter. *)
Definition createPCollectionInternal (coder : Coder) : M value := λ st,
  let p := pipeline st in
  let id := NilZero.string_of_uint (Nat.to_uint (counter p)) in
  let '(h, l) := alloc (st_heap st) (Object (Some Object_prototype) []
                                    (IPCollection id (self p) coder)) in
  (mkState h (mkPipeline (self p) (components p) (S (counter p)))
           (transformProto st),
   Ok (VRef l)).

(** A named transform, as [withName] returns it. *)
Record NamedTransform := mkNamedTransform {
  name : string;
  expand : value → M value;      (* (input, pipeline, transformProto) *)
}.

(** Modelled from the spec: [withName] and [extractName] live in
    [./transform], not under src/; the display name of the transform is
    ["parDo(" + name + ")"] for the declared or exported name, so
    [extractName] of a name is that name, and [withName] pairs a display
    name with an expansion routine. *)
Definition extractName (s : string) : string := s.

Definition withName (n : string) (f : value → M value) : NamedTransform :=
  mkNamedTransform n f.

(** The own enumerable properties an object spread copies from [v]: the
    entries of an object, the characters of a string (one per UTF-16 code
    unit) under their indices, nothing otherwise. *)
Definition spread_source (h : heap) (v : value) : list (string * value) :=
  match v with
  | VRef l => entries h l
  | VString s =>
      imap (λ i c, (NilZero.string_of_uint (Nat.to_uint i), VString c))
           (characters s)
  | _ => []
  end.

(** [{ ...a, ...b }] *)
Definition object_spread (h : heap) (a b : value) : heap * loc :=
  object_literal h (spread_source h a ++ spread_source h b).

Section LocalParDo.

(** The constants of [../internal/urns] and the wire encoder of
    [ParDoPayload], which the file imports. *)
Variable GLOBAL_WINDOW_MAPPING_FN_URN : string.
Variable IDENTITY_WINDOW_MAPPING_FN_URN : string.
Variable ASSIGN_MAX_TIMESTAMP_WINDOW_MAPPING_FN_URN : string.
Variable LOCAL_DOFN_EXPORT_NAME : string.
Variable ParDoPayload_toBinary : runnerApi.ParDoPayload → list byte.

Definition localParDo_urn : string := "beam:transform:pardo:v1".

(** The nested conditional that picks [windowMappingFn.urn]. *)
Definition windowMappingFn_urn (isGlobalSide : bool)
    (mainWindowingStrategyId sideWindowingStrategyId : string) : string :=
  if isGlobalSide then GLOBAL_WINDOW_MAPPING_FN_URN
  else if String.eqb mainWindowingStrategyId sideWindowingStrategyId
       then IDENTITY_WINDOW_MAPPING_FN_URN
       else ASSIGN_MAX_TIMESTAMP_WINDOW_MAPPING_FN_URN.

(** [x.f] where [x] may be undefined. *)
Definition defined {A} (o : option A) : M A :=
  match o with
  | Some a => mret a
  | None => throw TypeError
  end.

(** The branch of the loop taken for a [SideInputParam] entry. *)
Definition side_input_entry (input : value) (contextCopy : loc)
    (name : string) (value : value)
    (sideInputs : gmap string runnerApi.SideInput)
    : M (gmap string runnerApi.SideInput) :=
  let inputName := "side." +:+ name in
  (* transformProto.inputs[inputName] = value.pcoll.getId(); *)
  h ← gets st_heap;
  pcoll ← lift (get_prop h value "pcoll");
  id ← lift (getId h pcoll);
  modify (with_inputs (insert inputName id));;
  (* contextCopy[name] = copySideInputWithId(value, inputName); *)
  '(h1, copy) ← lift (copySideInputWithId h value inputName);
  modify (with_heap (λ _, set_prop h1 contextCopy name copy));;
  (* components.pcollections[input.getId()].windowingStrategyId *)
  h ← gets st_heap;
  comps ← gets (λ st, components (pipeline st));
  mainId ← lift (getId h input);
  mainPc ← defined (runnerApi.pcollections comps !! mainId);
  let mainWindowingStrategyId := runnerApi.windowingStrategyId mainPc in
  (* components.pcollections[transformProto.inputs[inputName]].windowingStrategyId *)
  ins ← gets (λ st, runnerApi.inputs (transformProto st));
  sidePc ← defined (ins !! inputName ≫= λ sid, runnerApi.pcollections comps !! sid);
  let sideWindowingStrategyId := runnerApi.windowingStrategyId sidePc in
  let sideWindowingStrategy :=
    runnerApi.windowingStrategies comps !! sideWindowingStrategyId in
  (* sideWindowingStrategy.windowFn!.urn == "beam:window_fn:global_windows:v1" *)
  ws ← defined sideWindowingStrategy;
  wfn ← defined (runnerApi.windowFn ws);
  let isGlobalSide :=
    String.eqb (runnerApi.urn wfn) "beam:window_fn:global_windows:v1" in
  (* sideInputs[inputName] = { accessPattern, viewFn, windowMappingFn } *)
  accessor ← lift (get_prop h value "accessor");
  pattern ← lift (get_prop h accessor "accessPattern");
  mret (<[inputName :=
           runnerApi.mkSideInput
             (runnerApi.mkAccessPattern pattern Uint8Array_empty)
             (runnerApi.mkFunctionSpec "unused" Uint8Array_empty)
             (runnerApi.mkWindowMappingFn
                (windowMappingFn_urn isGlobalSide mainWindowingStrategyId
                   sideWindowingStrategyId)
                Uint8Array_empty)]> sideInputs).

(** The body of the loop over [Object.entries(context)]. *)
Definition context_entry (input : value) (contextCopy : loc)
    (e : string * value) (sideInputs : gmap string runnerApi.SideInput)
    : M (gmap string runnerApi.SideInput) :=
  let '(name, value) := e in
  h ← gets st_heap;
  if instanceof h value SideInputParam_prototype
  then side_input_entry input contextCopy name value sideInputs
  else
    modify (with_heap (λ h, set_prop h contextCopy name value));;
    mret sideInputs.

(** The first half of [expandInternal]: the side inputs are extracted
    from the context.  It yields the locals [contextCopy] and
    [sideInputs] as they stand after the [if]. *)
Definition expandContext (context input : value)
    : M (value * gmap string runnerApi.SideInput) :=
  h ← gets st_heap;
  if String.eqb (typeof h context) "object" then
    '(h1, contextCopy) ← lift (Object_create h context);
    modify (with_heap (λ _, h1));;
    es ← lift (Object_entries h1 context);
    sideInputs ← for_of es ∅ (context_entry input contextCopy);
    mret (VRef contextCopy, sideInputs)
  else
    mret (context, ∅).

Definition expandInternal (doFn : LocalDoFn) (context input : value)
    : M value :=
  '(contextCopy, sideInputs) ← expandContext context input;
  (* Now finally construct the proto. *)
  modify (with_spec
    (runnerApi.mkFunctionSpec localParDo_urn
       (ParDoPayload_toBinary
          (runnerApi.mkParDoPayload
             (runnerApi.mkFunctionSpec LOCAL_DOFN_EXPORT_NAME
                (TextEncoder_encode (exportName doFn)))
             sideInputs))));;
  createPCollectionInternal GeneralObjectCoder.

(** [doFn.beamName || doFn.exportName] *)
Definition beamName_or_exportName (doFn : LocalDoFn) : string :=
  match beamName doFn with
  | Some s => if String.eqb s "" then exportName doFn else s
  | None => exportName doFn
  end.

Definition localParDo (doFn : LocalDoFn) (context : value) (h : heap)
    : heap * NamedTransform :=
  let '(h', context') :=
    if truthy (extractContext doFn)
    then let '(h1, o) := object_spread h (extractContext doFn) context in
         (h1, VRef o)
    else (h, context) in
  (h', withName ("parDo(" +:+ extractName (beamName_or_exportName doFn) +:+ ")")
         (expandInternal doFn context')).

End LocalParDo.

(** ** The runtime binding of parameters *)

Section Binding.

(** The runtime that provides values is external.  [W] is whatever state
    it keeps; a provider object answers [lookup] and [update] against it. *)
Variable W : Type.

Record ParamProvider := mkParamProvider {
  provider_lookup : loc → W → W * result value;
  provider_update : loc → value → W → W * result unit;
}.

(** Which objects of the heap are providers. *)
Variable provider_at : loc → option ParamProvider.

(** [this.provider.m(...)], once [this.provider] is known not to be
    undefined. *)
Definition provider_of (v : value) : result ParamProvider :=
  match v with
  | VRef p =>
      match provider_at p with
      | Some P => Ok P
      | None => Throw TypeError
      end
  | _ => Throw TypeError
  end.

(** [ParDoLookupParam.lookup] *)
Definition lookup (h : heap) (this : loc) (w : W) : W * result value :=
  match get h this "provider" with
  | VUndefined =>
      (w, Throw (Error "Cannot be called outside of a DoFn's process method."))
  | provider =>
      match provider_of provider with
      | Ok P => provider_lookup P this w
      | Throw e => (w, Throw e)
      end
  end.

(** [ParDoUpdateParam.update] *)
Definition update (h : heap) (this : loc) (value : value) (w : W)
    : W * result unit :=
  match get h this "provider" with
  | VUndefined =>
      (w, Throw (Error "Cannot be called outside of a DoFn's process method."))
  | provider =>
      match provider_of provider with
      | Ok P => provider_update P this value w
      | Throw e => (w, Throw e)
      end
  end.

End Binding.

(** ** Repeated tagging *)

(** The object a tagging allocates. *)
Definition tagged (p : nat) (id : string) : object :=
  Object (Some p) [("sideInputId", VString id)] IOrdinary.


(** [copySideInputWithId(sideInput, id)] for each [id] of a list in turn,
    collecting the copies. *)
Fixpoint tag_each (h : heap) (sideInput : value) (ids : list string)
    : result (heap * list value) :=
  match ids with
  | [] => Ok (h, [])
  | id :: ids' =>
      match copySideInputWithId h sideInput id with
      | Ok (h1, copy) =>
          match tag_each h1 sideInput ids' with
          | Ok (h2, copies) => Ok (h2, copy :: copies)
          | Throw e => Throw e
          end
      | Throw e => Throw e
      end
  end.

(** ** A sample pipeline

    The end-to-end example: a DoFn exported as ["double"], the context
    [{ limit: 3, threshold: new SideInputParam(side, accessor) }], a main
    input windowed by strategy ["W1"] and a side input windowed by
    ["W2"]. *)

Module Sample.

Definition GLOBAL : string := "GLOBAL_WINDOW_MAPPING_FN_URN".
Definition IDENTITY : string := "IDENTITY_WINDOW_MAPPING_FN_URN".
Definition ASSIGN_MAX : string := "ASSIGN_MAX_TIMESTAMP_WINDOW_MAPPING_FN_URN".
Definition EXPORT : string := "LOCAL_DOFN_EXPORT_NAME".

(** A stand-in for the wire encoder: the bytes of the DoFn's payload,
    then one byte per side input. *)
Definition toBinary (p : runnerApi.ParDoPayload) : list byte :=
  runnerApi.payload (runnerApi.doFn p)
  ++ replicate (size (runnerApi.sideInputs p)) "001"%byte.

Definition pipeline_loc : loc := 5.
Definition main : value := VRef 6.
Definition side : value := VRef 7.

Definition heap0 : heap :=
  module_heap ++
  [ Object (Some Object_prototype) [] IOrdinary;
    Object (Some Object_prototype) []
      (IPCollection "mainId" pipeline_loc GeneralObjectCoder);
    Object (Some Object_prototype) []
      (IPCollection "sideId" pipeline_loc GeneralObjectCoder);
    Object None [] IFunction;
    Object (Some Object_prototype) [] IOrdinary ].

Definition accessor_alloc : heap * loc :=
  object_literal heap0
    [("accessPattern", VString "beam:side_input:iterable:v1");
     ("toValue", VRef 8)].

Definition param_alloc : heap * loc :=
  new_SideInputParam accessor_alloc.1 side (VRef accessor_alloc.2).

Definition context_alloc : heap * loc :=
  object_literal param_alloc.1
    [("limit", VNumber 3); ("threshold", VRef param_alloc.2)].

Definition literal_context_alloc : heap * loc :=
  object_literal param_alloc.1
    [("limit", VNumber 3); ("label", VString "x"); ("7", VBool true)].

Definition param : loc := param_alloc.2.
Definition context : loc := context_alloc.2.

(** The context object, as [context_alloc] leaves it in the heap. *)
Definition sample_context_object : object :=
  Object (Some Object_prototype)
    [("limit", VNumber 3); ("threshold", VRef param)] IOrdinary.

Definition fixed_windows : runnerApi.WindowingStrategy :=
  runnerApi.mkWindowingStrategy
    (Some (runnerApi.mkFunctionSpec "beam:window_fn:fixed_windows:v1" [])).


Definition registry (sideStrategy : runnerApi.WindowingStrategy)
    : runnerApi.Components :=
  runnerApi.mkComponents
    {[ "mainId" := runnerApi.mkPCollection "W1";
       "sideId" := runnerApi.mkPCollection "W2" ]}
    {[ "W1" := fixed_windows; "W2" := sideStrategy ]}.

(** A registry that does not know the side dataset. *)
Definition registry_without_side : runnerApi.Components :=
  runnerApi.mkComponents
    {[ "mainId" := runnerApi.mkPCollection "W1" ]}
    {[ "W1" := fixed_windows ]}.


Definition descriptor : runnerApi.PTransform :=
  runnerApi.mkPTransform {[ "main" := "mainId" ]} ∅ None.

Definition start (h : heap) (comps : runnerApi.Components) : state :=
  mkState h (mkPipeline pipeline_loc comps 0) descriptor.

Definition double : LocalDoFn := mkLocalDoFn None "double" VUndefined.
Definition unnamed : LocalDoFn := mkLocalDoFn None "" VUndefined.

(** A runtime that logs the updates it receives and answers every lookup
    with the number of updates so far. *)
Definition recorder : ParamProvider (list (loc * value)) :=
  mkParamProvider (list (loc * value))
    (λ param w, (w, Ok (VNumber (Z.of_nat (length w)))))
    (λ param v w, (w ++ [(param, v)], Ok tt)).

Definition provider_loc : loc := 9.

Definition provider_at (l : loc) : option (ParamProvider (list (loc * value))) :=
  if l =? provider_loc then Some recorder else None.

(** A declared lookup parameter, and the same once the runtime has bound
    its provider. *)
Definition declared_alloc : heap * loc :=
  new_ParDoParam ParDoLookupParam_prototype heap0 "counter".

Definition bound_heap : heap :=
  set_prop declared_alloc.1 declared_alloc.2 "provider" (VRef provider_loc).

End Sample.

(** ** Notions for the whole-expansion properties *)

(** Computations that leave the objects of [h0] as they are. *)
Definition keeps (h0 : heap) {X} (m : M X) : Prop :=
  ∀ st, h0 `prefix_of` st_heap st → h0 `prefix_of` st_heap (m st).1.

(** Computations whose only exception is a [TypeError]. *)
Definition throws_TypeError_only {X} (m : M X) : Prop :=
  ∀ st e, (m st).2 = Throw e → e = TypeError.

(** Computations that write the descriptor's inputs under names of the
    form ["side." + k] only. *)
Definition writes_side_inputs_only {X} (m : M X) : Prop :=
  ∀ st j, (∀ k, j ≠ "side." +:+ k) →
    runnerApi.inputs (transformProto (m st).1) !! j
    = runnerApi.inputs (transformProto st) !! j.

(** ** The loop over the context, entry by entry *)

Section Resolution.

Variables (G I A : string).

(** What the heap and the registry answer for the side-input parameter
    [v], given the windowing strategy id of the main input: the id of the
    side dataset and the specification emitted for it, or [None] when one
    of the reads on the way fails. *)
Definition resolved_side_input (comps : runnerApi.Components) (h : heap)
    (mainWindowingStrategyId : string) (v : value)
    : option (string * runnerApi.SideInput) :=
  match get_prop h v "pcoll" with
  | Ok pcoll =>
      match getId h pcoll with
      | Ok sid =>
          sidePc ← runnerApi.pcollections comps !! sid;
          ws ← runnerApi.windowingStrategies comps
                 !! runnerApi.windowingStrategyId sidePc;
          wfn ← runnerApi.windowFn ws;
          match get_prop h v "accessor" with
          | Ok accessor =>
              match get_prop h accessor "accessPattern" with
              | Ok pattern =>
                  Some (sid,
                        runnerApi.mkSideInput
                          (runnerApi.mkAccessPattern pattern Uint8Array_empty)
                          (runnerApi.mkFunctionSpec "unused" Uint8Array_empty)
                          (runnerApi.mkWindowMappingFn
                             (windowMappingFn_urn G I A
                                (String.eqb (runnerApi.urn wfn)
                                   "beam:window_fn:global_windows:v1")
                                mainWindowingStrategyId
                                (runnerApi.windowingStrategyId sidePc))
                             Uint8Array_empty))
              | Throw _ => None
              end
          | Throw _ => None
          end
      | Throw _ => None
      end
  | Throw _ => None
  end.

(** The locals and the descriptor's inputs as the loop carries them: the
    own properties of the context copy, the tagged copies allocated so far,
    the side-input mapping and the inputs. *)
Record loop_state := mkLoopState {
  ls_props : list (string * value);
  ls_copies : list object;
  ls_sideInputs : gmap string runnerApi.SideInput;
  ls_inputs : gmap string string;
}.

(** One turn of the loop on a state of that shape, for an entry that is a
    literal or a side input that resolves; [h0] is the heap the expansion
    started from. *)
Definition loop_step (comps : runnerApi.Components) (h0 : heap)
    (mainWindowingStrategyId : string) (s : loop_state) (e : string * value)
    : loop_state :=
  if instanceof h0 e.2 SideInputParam_prototype then
    match e.2, resolved_side_input comps h0 mainWindowingStrategyId e.2 with
    | VRef p, Some (sid, si) =>
        mkLoopState
          (own_set e.1 (VRef (S (length h0) + length (ls_copies s))) (ls_props s))
          (ls_copies s ++ [tagged p ("side." +:+ e.1)])
          (<["side." +:+ e.1 := si]> (ls_sideInputs s))
          (<["side." +:+ e.1 := sid]> (ls_inputs s))
    | _, _ => s
    end
  else
    mkLoopState (own_set e.1 e.2 (ls_props s)) (ls_copies s)
      (ls_sideInputs s) (ls_inputs s).

End Resolution.

(** ** More of the sample pipeline *)

Module Sample2.
Import Sample.

(** A second side input, over the main dataset, and a context with both. *)
Definition weights_alloc : heap * loc :=
  new_SideInputParam param_alloc.1 main (VRef accessor_alloc.2).

Definition weights : loc := weights_alloc.2.

Definition both_context_alloc : heap * loc :=
  object_literal weights_alloc.1
    [("weights", VRef weights); ("limit", VNumber 3);
     ("threshold", VRef param)].

Definition both_context_object : object :=
  Object (Some Object_prototype)
    [("weights", VRef weights); ("limit", VNumber 3);
     ("threshold", VRef param)] IOrdinary.



(** A DoFn with a default context, and a caller's context. *)
Definition defaults_alloc : heap * loc :=
  object_literal heap0 [("limit", VNumber 1); ("unit", VString "ms")].

Definition caller_alloc : heap * loc :=
  object_literal defaults_alloc.1 [("limit", VNumber 3)].

Definition scale : LocalDoFn :=
  mkLocalDoFn (Some "scale") "scaleFn" (VRef defaults_alloc.2).

End Sample2.

(** ** Property attributes

    The file never calls [Object.freeze], [Object.defineProperty] or
    [Object.preventExtensions], and the objects it creates are extensible
    with writable properties; the embedding above is the code on heaps
    where every object is of that kind.  A caller may hand in objects that
    are not: the module is strict-mode code, where an assignment that
    cannot store throws a [TypeError], and the copy made by [Object.create]
    inherits the refusal of its prototype.  [Strict] embeds the same
    functions with the attributes [[Writable]] and [[Extensible]] kept
    beside the heap, and with the registry's maps read as the plain objects
    they are.  (A property that is a getter without setter refuses an
    assignment in the same way; reading it runs user code, and accessor
    properties stay outside the model.) *)

Module Strict.

Record attributes := mkAttributes {
  readonly : list (loc * string);     (* own properties that are not writable *)
  nonextensible : list loc;           (* objects that take no new property *)
}.

Definition no_attributes : attributes := mkAttributes [] [].

(** [Object.freeze(o)] *)
Definition freeze (h : heap) (l : loc) (a : attributes) : attributes :=
  mkAttributes
    (((λ e : string * value, (l, e.1)) <$> from_option props [] (h !! l))
       ++ readonly a)
    (l :: nonextensible a).

(** Attributes speak of allocated objects. *)
Definition attributes_wf (a : attributes) (h : heap) : Prop :=
  Forall (λ e, e.1 < length h) (readonly a)
  ∧ Forall (λ l, l < length h) (nonextensible a).

#[global] Instance attributes_wf_dec a h : Decision (attributes_wf a h).
Proof. unfold attributes_wf. apply _. Defined.

(** May [k] be assigned through an object whose chain starts at [l]: the
    first object of the chain that has [k] decides, by that property being
    writable; without any, nothing stands in the way. *)
Fixpoint writable_from (n : nat) (a : attributes) (h : heap) (l : loc)
    (k : string) : bool :=
  match h !! l with
  | None => true
  | Some o =>
      match own_lookup k (props o) with
      | Some _ => bool_decide ((l, k) ∉ readonly a)
      | None =>
          match proto o, n with
          | Some p, S n' => writable_from n' a h p k
          | _, _ => true
          end
      end
  end.

Definition writable (a : attributes) (h : heap) (l : loc) (k : string) : bool :=
  writable_from l a h l k.

Definition has_own (h : heap) (l : loc) (k : string) : bool :=
  bool_decide (is_Some (h !! l ≫= λ o, own_lookup k (props o))).

(** [o[k] = v] in strict-mode code: the value becomes an own property of
    the receiver, unless the property found on the chain is not writable,
    or the receiver would need a new property and is not extensible. *)
Definition assign (a : attributes) (h : heap) (l : loc) (k : string)
    (v : value) : result heap :=
  if writable a h l k
     && (has_own h l k || bool_decide (l ∉ nonextensible a))
  then Ok (set_prop h l k v)
  else Throw TypeError.

(** [copySideInputWithId] *)
Definition copySideInputWithId (a : attributes) (h : heap) (sideInput : value)
    (id : string) : result (heap * value) :=
  match Object_create h sideInput with
  | Ok (h1, copy) =>
      match assign a h1 copy "sideInputId" (VString id) with
      | Ok h2 =>
          let h3 := delete_prop h2 copy "pcoll" in
          Ok (h3, VRef copy)
      | Throw e => Throw e
      end
  | Throw e => Throw e
  end.

(** *** The registry's maps

    The file indexes [components.pcollections] and
    [components.windowingStrategies] as objects ([m[id]]); the message
    classes of [../proto/beam_runner_api], which are not under src/, create
    them as plain objects.  A key that is not registered but names a
    member of [Object.prototype] then finds that member, which has none of
    the fields the file reads. *)

Definition Object_prototype_keys : list string :=
  [ "constructor"; "__defineGetter__"; "__defineSetter__"; "hasOwnProperty";
    "__lookupGetter__"; "__lookupSetter__"; "isPrototypeOf";
    "propertyIsEnumerable"; "toString"; "valueOf"; "__proto__";
    "toLocaleString" ].

Inductive found (X : Type) :=
  | Registered (x : X)
  | Member
  | Absent.
Arguments Registered {X} x.
Arguments Member {X}.
Arguments Absent {X}.

Definition registry_get {X} (m : gmap string X) (k : string) : found X :=
  match m !! k with
  | Some x => Registered x
  | None => if bool_decide (k ∈ Object_prototype_keys) then Member else Absent
  end.

(** [pcollections[id].windowingStrategyId] *)
Definition windowingStrategyId_of (m : gmap string runnerApi.PCollection)
    (id : string) : result value :=
  match registry_get m id with
  | Registered pc => Ok (VString (runnerApi.windowingStrategyId pc))
  | Member => Ok VUndefined
  | Absent => Throw TypeError
  end.

(** The property key a value stands for in [m[v]]. *)
Definition property_key (v : value) : string :=
  match v with
  | VString s => s
  | _ => "undefined"
  end.

(** [windowingStrategies[id].windowFn!.urn] *)
Definition windowFn_urn_of (m : gmap string runnerApi.WindowingStrategy)
    (id : value) : result string :=
  match registry_get m (property_key id) with
  | Registered ws =>
      match runnerApi.windowFn ws with
      | Some wfn => Ok (runnerApi.urn wfn)
      | None => Throw TypeError
      end
  | Member | Absent => Throw TypeError
  end.

Section StrictLocalParDo.

Variable GLOBAL_WINDOW_MAPPING_FN_URN : string.
Variable IDENTITY_WINDOW_MAPPING_FN_URN : string.
Variable ASSIGN_MAX_TIMESTAMP_WINDOW_MAPPING_FN_URN : string.
Variable LOCAL_DOFN_EXPORT_NAME : string.
Variable ParDoPayload_toBinary : runnerApi.ParDoPayload → list byte.

(** The caller's attributes: nothing in the file changes them. *)
Variable a : attributes.

(** The nested conditional that picks [windowMappingFn.urn], on ids that
    may be undefined. *)
Definition windowMappingFn_urn (isGlobalSide : bool)
    (mainWindowingStrategyId sideWindowingStrategyId : value) : string :=
  if isGlobalSide then GLOBAL_WINDOW_MAPPING_FN_URN
  else if bool_decide (mainWindowingStrategyId = sideWindowingStrategyId)
       then IDENTITY_WINDOW_MAPPING_FN_URN
       else ASSIGN_MAX_TIMESTAMP_WINDOW_MAPPING_FN_URN.

(** The branch of the loop taken for a [SideInputParam] entry. *)
Definition side_input_entry (input : value) (contextCopy : loc)
    (name : string) (value : value)
    (sideInputs : gmap string runnerApi.SideInput)
    : M (gmap string runnerApi.SideInput) :=
  let inputName := "side." +:+ name in
  (* transformProto.inputs[inputName] = value.pcoll.getId(); *)
  h ← gets st_heap;
  pcoll ← lift (get_prop h value "pcoll");
  id ← lift (getId h pcoll);
  modify (with_inputs (insert inputName id));;
  (* contextCopy[name] = copySideInputWithId(value, inputName); *)
  '(h1, copy) ← lift (copySideInputWithId a h value inputName);
  modify (with_heap (λ _, h1));;
  h2 ← lift (assign a h1 contextCopy name copy);
  modify (with_heap (λ _, h2));;
  (* components.pcollections[input.getId()].windowingStrategyId *)
  h ← gets st_heap;
  comps ← gets (λ st, components (pipeline st));
  mainId ← lift (getId h input);
  mainWindowingStrategyId ←
    lift (windowingStrategyId_of (runnerApi.pcollections comps) mainId);
  (* components.pcollections[transformProto.inputs[inputName]].windowingStrategyId *)
  ins ← gets (λ st, runnerApi.inputs (transformProto st));
  let sid := default "undefined" (ins !! inputName) in
  sideWindowingStrategyId ←
    lift (windowingStrategyId_of (runnerApi.pcollections comps) sid);
  (* sideWindowingStrategy.windowFn!.urn == "beam:window_fn:global_windows:v1" *)
  urn ← lift (windowFn_urn_of (runnerApi.windowingStrategies comps)
                sideWindowingStrategyId);
  let isGlobalSide := String.eqb urn "beam:window_fn:global_windows:v1" in
  (* sideInputs[inputName] = { accessPattern, viewFn, windowMappingFn } *)
  accessor ← lift (get_prop h value "accessor");
  pattern ← lift (get_prop h accessor "accessPattern");
  mret (<[inputName :=
           runnerApi.mkSideInput
             (runnerApi.mkAccessPattern pattern Uint8Array_empty)
             (runnerApi.mkFunctionSpec "unused" Uint8Array_empty)
             (runnerApi.mkWindowMappingFn
                (windowMappingFn_urn isGlobalSide mainWindowingStrategyId
                   sideWindowingStrategyId)
                Uint8Array_empty)]> sideInputs).

(** The body of the loop over [Object.entries(context)]. *)
Definition context_entry (input : value) (contextCopy : loc)
    (e : string * value) (sideInputs : gmap string runnerApi.SideInput)
    : M (gmap string runnerApi.SideInput) :=
  let '(name, value) := e in
  h ← gets st_heap;
  if instanceof h value SideInputParam_prototype
  then side_input_entry input contextCopy name value sideInputs
  else
    h' ← lift (assign a h contextCopy name value);
    modify (with_heap (λ _, h'));;
    mret sideInputs.

Definition expandContext (context input : value)
    : M (value * gmap string runnerApi.SideInput) :=
  h ← gets st_heap;
  if String.eqb (typeof h context) "object" then
    '(h1, contextCopy) ← lift (Object_create h context);
    modify (with_heap (λ _, h1));;
    es ← lift (Object_entries h1 context);
    sideInputs ← for_of es ∅ (context_entry input contextCopy);
    mret (VRef contextCopy, sideInputs)
  else
    mret (context, ∅).

Definition expandInternal (doFn : LocalDoFn) (context input : value)
    : M value :=
  '(contextCopy, sideInputs) ← expandContext context input;
  modify (with_spec
    (runnerApi.mkFunctionSpec localParDo_urn
       (ParDoPayload_toBinary
          (runnerApi.mkParDoPayload
             (runnerApi.mkFunctionSpec LOCAL_DOFN_EXPORT_NAME
                (TextEncoder_encode (exportName doFn)))
             sideInputs))));;
  createPCollectionInternal GeneralObjectCoder.

End StrictLocalParDo.

(** What the agreement of the two embeddings needs of an entry of the
    context [c]: its key can be assigned through the copy, and, for a side
    input, so can [sideInputId] through the tagged copy, while the ids of
    the main and the side dataset do not name a member of
    [Object.prototype] that is not registered. *)
Definition unhindered (a : attributes) (comps : runnerApi.Components)
    (h : heap) (input : value) (c : loc) (e : string * value) : Prop :=
  writable a h c e.1 = true
  ∧ (instanceof h e.2 SideInputParam_prototype = true →
     ∃ p : loc,
       e.2 = VRef p
       ∧ writable a h p "sideInputId" = true
       ∧ allocated (length h) input
       ∧ (∀ mid, getId h input = Ok mid →
            registry_get (runnerApi.pcollections comps) mid ≠ Member)
       ∧ (∀ sid, getId h (get h p "pcoll") = Ok sid →
            registry_get (runnerApi.pcollections comps) sid ≠ Member)).

End Strict.

(** ** Frozen contexts of the sample pipeline *)

Module Sample3.
Import Sample.

(** [Object.freeze({ limit: 3, label: "x", 7: true })] *)
Definition frozen_literals : Strict.attributes :=
  Strict.freeze literal_context_alloc.1 literal_context_alloc.2
    Strict.no_attributes.

(** [Object.freeze({ limit: 3, threshold: param })] *)
Definition frozen_context : Strict.attributes :=
  Strict.freeze context_alloc.1 context_alloc.2 Strict.no_attributes.

(** The context [{ limit: 3, threshold: param }] after
    [Object.defineProperty(context, "threshold", { writable: false })]. *)
Definition locked_threshold : Strict.attributes :=
  Strict.mkAttributes [(context_alloc.2, "threshold")] [].

(** [Object.freeze(param)] and [Object.freeze(accessor)] *)
Definition frozen_param : Strict.attributes :=
  Strict.freeze param_alloc.1 param Strict.no_attributes.

Definition frozen_accessor : Strict.attributes :=
  Strict.freeze accessor_alloc.1 accessor_alloc.2 Strict.no_attributes.

(** The parameter once the caller has set its [sideInputId] and frozen
    it, and a context that holds it. *)
Definition preset_alloc : heap * loc :=
  object_literal (set_prop param_alloc.1 param "sideInputId" (VString "mine"))
    [("threshold", VRef param)].

Definition frozen_preset_param : Strict.attributes :=
  Strict.freeze preset_alloc.1 param Strict.no_attributes.

End Sample3.

(** * Facts about the object heap *)

Module JSFacts.
Import JS.

(** *** Strings *)

Lemma code_points_bytes s :
  code_points s ≫= list_byte_of_string = list_byte_of_string s.
Proof.
  induction s as [|a r IH]; [done|].
  change (list_byte_of_string (String a r))
    with (byte_of_ascii a :: list_byte_of_string r).
  rewrite <- IH. cbn [code_points].
  destruct (code_points r) as [|[|b c] cs]; [done..|].
  by destruct (is_continuation b).
Qed.

(** On a string without lone surrogates the encoder yields the bytes the
    string is held as. *)
Lemma TextEncoder_encode_well_formed s :
  well_formed s = true → TextEncoder_encode s = list_byte_of_string s.
Proof.
  unfold well_formed, TextEncoder_encode. intros Hwf.
  rewrite <- code_points_bytes.
  induction (code_points s) as [|c cs IH]; [done|].
  simpl in Hwf. apply andb_true_iff in Hwf as [Hc Hcs].
  cbn [mbind list_bind]. apply negb_true_iff in Hc. rewrite Hc.
  f_equal. by apply IH.
Qed.

(** A letter, a two-byte letter and a code point above [U+FFFF]: four
    characters, the last two being the surrogates [D83D] and [DE00], which
    the encoder cannot tell apart once they are separated. *)
Example characters_sample :
  characters "aé😀" = ["a"; "é"; surrogate 55357; surrogate 56832]
  ∧ TextEncoder_encode "aé😀"
    = ["a"; "195"; "169"; "240"; "159"; "152"; "128"]%byte
  ∧ TextEncoder_encode (surrogate 55357) = ["239"; "191"; "189"]%byte.
Proof. by vm_compute. Qed.

(** *** Own properties *)

Lemma own_lookup_None k ps : own_lookup k ps = None ↔ k ∉ ps.*1.
Proof.
  induction ps as [|[k' v'] ps IH]; simpl.
  - split; [intros _; apply not_elem_of_nil | done].
  - destruct (String.eqb_spec k' k) as [->|Hne].
    + split; [done | intros []; left].
    + rewrite IH, not_elem_of_cons. split; [by intros ?; split|by intros [_ ?]].
Qed.

Lemma own_lookup_Some_elem k v ps : own_lookup k ps = Some v → (k, v) ∈ ps.
Proof.
  induction ps as [|[k' v'] ps IH]; simpl; [done|].
  destruct (String.eqb_spec k' k) as [->|Hne].
  - intros [= ->]. left.
  - intros H. right. auto.
Qed.

Lemma own_lookup_elem k v ps :
  NoDup ps.*1 → (k, v) ∈ ps → own_lookup k ps = Some v.
Proof.
  induction ps as [|[k' v'] ps IH]; simpl.
  - intros _ H. by apply elem_of_nil in H.
  - rewrite NoDup_cons. intros [Hk Hnd] [Heq|Hin]%elem_of_cons.
    + injection Heq as -> ->. by rewrite String.eqb_refl.
    + destruct (String.eqb_spec k' k) as [->|Hne]; [|auto].
      exfalso. apply Hk. change k with (k, v).1. by apply list_elem_of_fmap_2.
Qed.

Lemma own_lookup_app k ps qs :
  own_lookup k (ps ++ qs) =
  match own_lookup k ps with Some v => Some v | None => own_lookup k qs end.
Proof.
  induction ps as [|[k' v'] ps IH]; simpl; [done|].
  by destruct (String.eqb k' k).
Qed.

Lemma own_set_fresh k v ps :
  own_lookup k ps = None → own_set k v ps = ps ++ [(k, v)].
Proof.
  induction ps as [|[k' v'] ps IH]; simpl; [done|].
  destruct (String.eqb k' k); [done|]. intros H. by rewrite IH.
Qed.

Lemma own_lookup_own_set k k' v ps :
  own_lookup k' (own_set k v ps) =
  if (String.eqb k k') then Some v else own_lookup k' ps.
Proof.
  induction ps as [|[k0 v0] ps IH]; simpl.
  - done.
  - destruct (String.eqb_spec k0 k) as [->|Hne]; simpl.
    + by destruct (String.eqb k k').
    + rewrite IH. destruct (String.eqb_spec k0 k') as [->|Hne'];
        [|done]. by rewrite (proj2 (String.eqb_neq k k')).
Qed.

Lemma own_delete_absent k ps : own_lookup k ps = None → own_delete k ps = ps.
Proof.
  induction ps as [|[k' v'] ps IH]; simpl; [done|].
  destruct (String.eqb k' k); [done|]. intros H. by rewrite IH.
Qed.

(** Assigning the entries of an object with distinct keys, in turn, to an
    object that has none of them appends them in that order. *)
Lemma fold_own_set_fresh (L P : list (string * value)) :
  NoDup (P ++ L).*1 →
  fold_left (λ acc e, own_set e.1 e.2 acc) L P = P ++ L.
Proof.
  revert P. induction L as [|[k v] L IH]; intros P Hnd; simpl.
  - by rewrite app_nil_r.
  - rewrite own_set_fresh.
    + rewrite IH; rewrite <- app_assoc; done.
    + apply own_lookup_None. rewrite fmap_app, NoDup_app in Hnd.
      destruct Hnd as (_ & Hdis & _). intros Hin. apply (Hdis _ Hin). left.
Qed.

(** *** The enumeration order *)

Lemma insert_entry_Permutation e l : insert_entry e l ≡ₚ e :: l.
Proof.
  induction l as [|e' l IH]; simpl; [done|].
  destruct (index_of e <=? index_of e')%N; [done|].
  rewrite IH. apply Permutation_swap.
Qed.

Lemma sort_entries_Permutation l : sort_entries l ≡ₚ l.
Proof.
  induction l as [|e l IH]; simpl; [done|].
  by rewrite insert_entry_Permutation, IH.
Qed.

Lemma insert_entry_sorted e l : sorted_entries l → sorted_entries (insert_entry e l).
Proof.
  unfold sorted_entries. induction l as [|e' l IH]; simpl; intros Hs.
  - repeat constructor.
  - destruct (N.leb_spec (index_of e) (index_of e')) as [Hle|Hlt].
    + constructor; [done|]. by constructor.
    + apply Sorted_inv in Hs as [Hs Hhd]. constructor; [auto|].
      destruct l as [|e'' l]; simpl.
      * constructor. lia.
      * destruct (index_of e <=? index_of e'')%N; constructor; [lia|].
        by inversion Hhd.
Qed.

Lemma sort_entries_sorted l : sorted_entries (sort_entries l).
Proof.
  induction l as [|e l IH]; simpl; [constructor|].
  by apply insert_entry_sorted.
Qed.

Lemma sort_entries_id l : sorted_entries l → sort_entries l = l.
Proof.
  unfold sorted_entries. induction l as [|e l IH]; simpl; [done|].
  intros [Hs Hhd]%Sorted_inv. rewrite IH by done.
  destruct l as [|e' l]; simpl; [done|].
  inversion Hhd as [|? ? Hle]; subst.
  by rewrite (proj2 (N.leb_le _ _) Hle).
Qed.

Lemma own_entries_Permutation ps : own_entries ps ≡ₚ ps.
Proof.
  unfold own_entries. rewrite sort_entries_Permutation.
  induction ps as [|e ps IH]; [done|].
  rewrite !filter_cons. destruct (decide (is_index e)) as [Hi|Hi].
  - rewrite decide_False by (intros Hn; by apply Hn). simpl. by rewrite IH.
  - rewrite decide_True by done. rewrite <- Permutation_middle. by rewrite IH.
Qed.

Lemma filter_all {A} (P : A → Prop) `{∀ x, Decision (P x)} (l : list A) :
  Forall P l → filter P l = l.
Proof.
  induction 1 as [|x l Hx Hl IH]; [done|].
  by rewrite filter_cons, decide_True, IH.
Qed.

Lemma filter_none {A} (P : A → Prop) `{∀ x, Decision (P x)} (l : list A) :
  Forall (λ x, ¬ P x) l → filter P l = [].
Proof.
  induction 1 as [|x l Hx Hl IH]; [done|].
  by rewrite filter_cons, decide_False, IH.
Qed.

Lemma own_entries_idemp ps : own_entries (own_entries ps) = own_entries ps.
Proof.
  assert (Hidx : Forall is_index (sort_entries (filter is_index ps))).
  { rewrite sort_entries_Permutation. apply Forall_forall.
    intros e He. by apply list_elem_of_filter in He as [? _]. }
  assert (Hnidx : Forall (λ e, ¬ is_index e) (filter (λ e, ¬ is_index e) ps)).
  { apply Forall_forall. intros e He. by apply list_elem_of_filter in He as [? _]. }
  unfold own_entries. rewrite !filter_app.
  rewrite (filter_all is_index (sort_entries _)) by done.
  rewrite (filter_none is_index (filter _ ps)) by done.
  rewrite (filter_none (λ e, ¬ is_index e) (sort_entries _)).
  2:{ eapply Forall_impl; [exact Hidx|]. intros e He Hn. by apply Hn. }
  rewrite (filter_all (λ e, ¬ is_index e) (filter _ ps)) by done.
  rewrite app_nil_r. simpl.
  by rewrite sort_entries_id by apply sort_entries_sorted.
Qed.

Lemma own_entries_nodup ps : NoDup ps.*1 → NoDup (own_entries ps).*1.
Proof.
  intros H.
  assert (Hp : (own_entries ps).*1 ≡ₚ ps.*1)
    by apply fmap_Permutation, own_entries_Permutation.
  by rewrite Hp.
Qed.

Lemma own_lookup_Permutation k ps qs :
  NoDup ps.*1 → ps ≡ₚ qs → own_lookup k ps = own_lookup k qs.
Proof.
  intros Hnd Hp.
  assert (Hnd' : NoDup qs.*1).
  { assert (Hp' : ps.*1 ≡ₚ qs.*1) by (by apply fmap_Permutation).
    by rewrite <- Hp'. }
  destruct (own_lookup k ps) as [v|] eqn:E.
  - symmetry. apply own_lookup_elem; [done|]. rewrite <- Hp.
    by apply own_lookup_Some_elem.
  - symmetry. apply own_lookup_None. rewrite <- Hp. by apply own_lookup_None.
Qed.

Lemma own_lookup_own_entries k ps :
  NoDup ps.*1 → own_lookup k (own_entries ps) = own_lookup k ps.
Proof.
  intros Hnd. symmetry. apply own_lookup_Permutation; [done|].
  symmetry. apply own_entries_Permutation.
Qed.


(** *** Well-formedness *)

Lemma heap_wfb_spec h : heap_wfb h = true → heap_wf h.
Proof.
  unfold heap_wfb, heap_wf. rewrite forallb_forall. intros H l o Hl.
  assert (Hin : In (l, o) (imap pair h)).
  { apply list_elem_of_In, list_elem_of_lookup. exists l.
    by rewrite list_lookup_imap, Hl. }
  apply H in Hin. simpl in Hin. by apply bool_decide_eq_true in Hin.
Qed.

Lemma heap_wf_proto h (l : nat) o (p : nat) :
  heap_wf h → h !! l = Some o → proto o = Some p → p < l.
Proof. intros Hwf Hl Hp. destruct (Hwf l o Hl) as (H & _). by rewrite Hp in H. Qed.

Lemma heap_wf_own h l o k v :
  heap_wf h → h !! l = Some o → own_lookup k (props o) = Some v →
  allocated (length h) v.
Proof.
  intros Hwf Hl Hk. destruct (Hwf l o Hl) as (_ & H & _).
  rewrite Forall_forall in H. by apply (H (k, v)), own_lookup_Some_elem.
Qed.

Lemma heap_wf_nodup h l o : heap_wf h → h !! l = Some o → NoDup (props o).*1.
Proof. intros Hwf Hl. by destruct (Hwf l o Hl) as (_ & _ & H). Qed.

Lemma allocated_mono (n m : nat) v : n ≤ m → allocated n v → allocated m v.
Proof. destruct v; simpl; lia. Qed.

(** *** Reads are stable under allocation

    Objects allocated later, or changes to them, are invisible from an
    older object: its prototype chain only runs through older ones. *)

Lemma heap_wf_protos h : heap_wf h → protos_wf h.
Proof. intros Hwf l o p. by apply heap_wf_proto. Qed.

Lemma get_from_stable_protos h r k (n m l : nat) :
  protos_wf h → l < length h → l ≤ n → l ≤ m →
  get_from n (h ++ r) l k = get_from m h l k.
Proof.
  intros Hwf. revert m l. induction n as [|n IH]; intros m l Hl Hn Hm.
  - assert (l = 0) as -> by lia.
    destruct (lookup_lt_is_Some_2 h 0 Hl) as [o Ho].
    destruct m; simpl; rewrite lookup_app_l, Ho by done;
      destruct (own_lookup k (props o)); try done;
      destruct (proto o) as [p|] eqn:Hp; try done;
      pose proof (Hwf _ _ _ Ho Hp); lia.
  - destruct (lookup_lt_is_Some_2 h l Hl) as [o Ho].
    simpl. rewrite lookup_app_l, Ho by done.
    destruct m as [|m]; simpl; rewrite Ho;
      destruct (own_lookup k (props o)); try done;
      destruct (proto o) as [p|] eqn:Hp; try done;
      pose proof (Hwf _ _ _ Ho Hp); [lia|].
    apply IH; lia.
Qed.

Lemma get_from_stable h r k (n m l : nat) :
  heap_wf h → l < length h → l ≤ n → l ≤ m →
  get_from n (h ++ r) l k = get_from m h l k.
Proof. intros Hwf. by apply get_from_stable_protos, heap_wf_protos. Qed.

Lemma get_app h r (l : nat) k :
  heap_wf h → l < length h → get (h ++ r) l k = get h l k.
Proof. intros. by apply get_from_stable. Qed.

Lemma chain_has_stable h r q (n m l : nat) :
  heap_wf h → l < length h → l ≤ n → l ≤ m →
  chain_has n (h ++ r) l q = chain_has m h l q.
Proof.
  intros Hwf. revert m l. induction n as [|n IH]; intros m l Hl Hn Hm.
  - assert (l = 0) as -> by lia.
    destruct (lookup_lt_is_Some_2 h 0 Hl) as [o Ho].
    destruct m; simpl; rewrite lookup_app_l, Ho by done;
      destruct (proto o) as [p|] eqn:Hp; try done;
      pose proof (heap_wf_proto _ _ _ _ Hwf Ho Hp); lia.
  - destruct (lookup_lt_is_Some_2 h l Hl) as [o Ho].
    simpl. rewrite lookup_app_l, Ho by done.
    destruct m as [|m]; simpl; rewrite Ho;
      destruct (proto o) as [p|] eqn:Hp; try done;
      pose proof (heap_wf_proto _ _ _ _ Hwf Ho Hp); [lia|].
    f_equal. apply IH; lia.
Qed.

Lemma instanceof_app h r v q :
  heap_wf h → allocated (length h) v →
  instanceof (h ++ r) v q = instanceof h v q.
Proof.
  intros Hwf Ha. destruct v; try done. simpl in *. by apply chain_has_stable.
Qed.

(** What a read returns was stored in some object, hence is allocated. *)
Lemma get_from_allocated h n l k :
  heap_wf h → allocated (length h) (get_from n h l k).
Proof.
  intros Hwf. revert l. induction n as [|n IH]; intros l; simpl;
    destruct (h !! l) as [o|] eqn:Ho; try done;
    destruct (own_lookup k (props o)) as [v|] eqn:Hk;
    try (by eapply heap_wf_own);
    destruct (proto o); try done.
Qed.

Lemma get_allocated h l k : heap_wf h → allocated (length h) (get h l k).
Proof. apply get_from_allocated. Qed.

(** *** Writes *)

Lemma set_prop_middle h o r k v :
  set_prop (h ++ o :: r) (length h) k v
  = h ++ Object (proto o) (own_set k v (props o)) (slot o) :: r.
Proof.
  unfold set_prop. rewrite list_lookup_middle by done.
  rewrite insert_app_r_alt by done. by rewrite Nat.sub_diag.
Qed.

Lemma delete_prop_middle h o r k :
  delete_prop (h ++ o :: r) (length h) k
  = h ++ Object (proto o) (own_delete k (props o)) (slot o) :: r.
Proof.
  unfold delete_prop. rewrite list_lookup_middle by done.
  rewrite insert_app_r_alt by done. by rewrite Nat.sub_diag.
Qed.

Lemma set_prop_app_l h r (l : nat) k v :
  l < length h → set_prop (h ++ r) l k v = set_prop h l k v ++ r.
Proof.
  intros Hl. unfold set_prop. rewrite lookup_app_l by done.
  destruct (h !! l); [|done]. by rewrite insert_app_l.
Qed.

Lemma set_prop_length h (l : nat) k v : length (set_prop h l k v) = length h.
Proof. unfold set_prop. destruct (h !! l); [|done]. by rewrite length_insert. Qed.

Lemma set_prop_protos h (l : nat) k v : protos_wf h → protos_wf (set_prop h l k v).
Proof.
  intros Hwf l' o' p. unfold set_prop.
  destruct (h !! l) as [o|] eqn:Ho; [|apply Hwf].
  destruct (decide (l = l')) as [<-|Hne].
  - rewrite list_lookup_insert_eq by (by eapply lookup_lt_Some).
    intros [= <-]. simpl. by apply Hwf.
  - rewrite list_lookup_insert_ne by done. apply Hwf.
Qed.

(** A read finds an own property at once. *)
Lemma get_own h (l : nat) o k v :
  h !! l = Some o → own_lookup k (props o) = Some v → get h l k = v.
Proof. intros Hl Hk. unfold get. destruct l; simpl; by rewrite Hl, Hk. Qed.

(** A read through an heir allocated after [h]: the own property if the
    heir has it, else whatever the prototype answers. *)
Lemma get_suffix h C (j : nat) o (q : nat) k :
  protos_wf h → C !! j = Some o → proto o = Some q → q < length h →
  get (h ++ C) (length h + j) k =
  match own_lookup k (props o) with Some v => v | None => get h q k end.
Proof.
  intros Hwf Hj Hq Hlt. unfold get at 1.
  destruct (length h + j) as [|n] eqn:Hn; [lia|].
  simpl. rewrite <- Hn, lookup_app_r by lia.
  replace (length h + j - length h) with j by lia. rewrite Hj, Hq.
  destruct (own_lookup k (props o)); [done|].
  apply get_from_stable_protos; [done|lia..].
Qed.

Lemma get_heir h (p : nat) ps sl r k :
  protos_wf h → p < length h →
  get (h ++ Object (Some p) ps sl :: r) (length h) k =
  match own_lookup k ps with Some v => v | None => get h p k end.
Proof.
  intros Hwf Hp.
  pose proof (get_suffix h (Object (Some p) ps sl :: r) 0 _ p k Hwf
                eq_refl eq_refl Hp) as H.
  by rewrite Nat.add_0_r in H.
Qed.

End JSFacts.

(** * Facts about the expansion *)

Section Expansion.
Import JS JSFacts.

Variables (G I A L : string) (toBinary : runnerApi.ParDoPayload → list byte).


#[local] Arguments copySideInputWithId : simpl never.
#[local] Arguments set_prop : simpl never.
#[local] Arguments delete_prop : simpl never.
#[local] Arguments get : simpl never.
#[local] Arguments getId : simpl never.
#[local] Arguments get_prop : simpl never.
#[local] Arguments instanceof : simpl never.
#[local] Arguments typeof : simpl never.
#[local] Arguments windowMappingFn_urn : simpl never.
#[local] Arguments String.append : simpl never.
#[local] Arguments String.eqb : simpl never.

Ltac munfold :=
  unfold mbind, M_bind, mret, M_ret, gets, modify, lift, throw, defined;
  simpl.

Lemma copySideInputWithId_ref h (p : nat) id :
  copySideInputWithId h (VRef p) id =
  Ok (h ++ [Object (Some p) [("sideInputId", VString id)] IOrdinary],
      VRef (length h)).
Proof.
  unfold copySideInputWithId, Object_create, alloc.
  by rewrite set_prop_middle, delete_prop_middle.
Qed.

Lemma getId_app h r v :
  allocated (length h) v → getId (h ++ r) v = getId h v.
Proof.
  destruct v; try done. unfold getId. simpl. intros Hl. by rewrite lookup_app_l.
Qed.

Lemma get_prop_app h r v k :
  heap_wf h → allocated (length h) v → get_prop (h ++ r) v k = get_prop h v k.
Proof.
  destruct v; try done. unfold get_prop. simpl. intros Hwf Hl. by rewrite get_app.
Qed.

(** An entry that is not a side input is assigned to the copy as it is. *)
Lemma context_entry_literal input h0 pr P sl R k v acc st :
  st_heap st = h0 ++ Object pr P sl :: R →
  heap_wf h0 → allocated (length h0) v →
  instanceof h0 v SideInputParam_prototype = false →
  context_entry G I A input (length h0) (k, v) acc st
  = (with_heap (λ _, h0 ++ Object pr (own_set k v P) sl :: R) st, Ok acc).
Proof.
  intros Hst Hwf Hv Hi. unfold context_entry. munfold.
  rewrite Hst, instanceof_app, Hi by done. munfold.
  unfold with_heap. by rewrite Hst, set_prop_middle.
Qed.

Lemma for_of_literals input h0 pr sl R Ls : ∀ P acc st,
  st_heap st = h0 ++ Object pr P sl :: R →
  heap_wf h0 →
  Forall (λ e, allocated (length h0) e.2
               ∧ instanceof h0 e.2 SideInputParam_prototype = false) Ls →
  for_of Ls acc (context_entry G I A input (length h0)) st
  = (with_heap (λ _, h0 ++ Object pr
                 (fold_left (λ a e, own_set e.1 e.2 a) Ls P) sl :: R) st,
     Ok acc).
Proof.
  induction Ls as [|[k v] Ls IH]; intros P acc st Hst Hwf HL; cbn [for_of].
  - munfold. unfold with_heap. rewrite <- Hst. by destruct st.
  - apply Forall_cons in HL as [[Hv Hi] HL]. unfold mbind, M_bind.
    erewrite context_entry_literal by done.
    by rewrite (IH (own_set k v P)).
Qed.

Lemma side_input_entry_ok input h0 pr P sl R k (p : nat) sis st
    sid mid mpc spc ws wfn pat :
  st_heap st = h0 ++ Object pr P sl :: R →
  heap_wf h0 → p < length h0 → allocated (length h0) input →
  getId h0 (get h0 p "pcoll") = Ok sid →
  getId h0 input = Ok mid →
  runnerApi.pcollections (components (pipeline st)) !! mid = Some mpc →
  runnerApi.pcollections (components (pipeline st)) !! sid = Some spc →
  runnerApi.windowingStrategies (components (pipeline st))
    !! runnerApi.windowingStrategyId spc = Some ws →
  runnerApi.windowFn ws = Some wfn →
  get_prop h0 (get h0 p "accessor") "accessPattern" = Ok pat →
  side_input_entry G I A input (length h0) k (VRef p) sis st
  = (mkState
       (h0 ++ Object pr (own_set k (VRef (length (st_heap st))) P) sl
           :: R ++ [Object (Some p) [("sideInputId", VString ("side." +:+ k))]
                      IOrdinary])
       (pipeline st)
       (runnerApi.mkPTransform
          (<["side." +:+ k := sid]> (runnerApi.inputs (transformProto st)))
          (runnerApi.outputs (transformProto st))
          (runnerApi.spec (transformProto st))),
     Ok (<["side." +:+ k :=
            runnerApi.mkSideInput
              (runnerApi.mkAccessPattern pat [])
              (runnerApi.mkFunctionSpec "unused" [])
              (runnerApi.mkWindowMappingFn
                 (windowMappingFn_urn G I A
                    (String.eqb (runnerApi.urn wfn)
                       "beam:window_fn:global_windows:v1")
                    (runnerApi.windowingStrategyId mpc)
                    (runnerApi.windowingStrategyId spc))
                 [])]> sis)).
Proof.
  intros Hst Hwf Hp Hin Hsid Hmid Hmpc Hspc Hws Hwfn Hpat.
  unfold side_input_entry. munfold. rewrite Hst.
  rewrite get_app by done.
  rewrite getId_app by (by apply get_allocated).
  rewrite Hsid. munfold.
  rewrite set_prop_middle, delete_prop_middle. simpl.
  rewrite <- app_assoc, <- app_comm_cons, set_prop_middle. simpl.
  rewrite getId_app, Hmid by done. munfold.
  rewrite Hmpc. munfold. rewrite lookup_insert_eq. simpl.
  rewrite Hspc. munfold. rewrite Hws. munfold. rewrite Hwfn. munfold.
  rewrite get_app by done.
  rewrite get_prop_app, Hpat by (done || by apply get_allocated).
  done.
Qed.

Lemma getId_Throw h v e : getId h v = Throw e → e = TypeError.
Proof.
  unfold getId. destruct v; try (by intros [= <-]).
  destruct (slot <$> h !! l) as [[]|]; by intros [= <-].
Qed.


Lemma for_of_app {X B} (l1 l2 : list X) (acc : B) body st :
  for_of (l1 ++ l2) acc body st =
  match for_of l1 acc body st with
  | (st', Ok acc') => for_of l2 acc' body st'
  | (st', Throw e) => (st', Throw e)
  end.
Proof.
  revert acc st. induction l1 as [|x l1 IH]; intros acc st; simpl; [done|].
  unfold mbind, M_bind. destruct (body x acc st) as [st' [acc'|e]]; [|done].
  apply IH.
Qed.

Lemma context_entry_side_input input h0 r cc k (p : nat) acc st :
  st_heap st = h0 ++ r → heap_wf h0 → p < length h0 →
  instanceof h0 (VRef p) SideInputParam_prototype = true →
  context_entry G I A input cc (k, VRef p) acc st
  = side_input_entry G I A input cc k (VRef p) acc st.
Proof.
  intros Hst Hwf Hp Hi. unfold context_entry. munfold.
  by rewrite Hst, instanceof_app, Hi.
Qed.

Lemma typeof_object_eqb h v :
  typeof h v = "object" → String.eqb (typeof h v) "object" = true.
Proof. intros ->. done. Qed.

(** The entries of a well-formed object are allocated values. *)
Lemma entries_allocated h (c : nat) o :
  heap_wf h → h !! c = Some o →
  Forall (λ e, allocated (length h) e.2) (own_entries (props o)).
Proof.
  intros Hwf Hc. rewrite own_entries_Permutation.
  by destruct (Hwf c o Hc) as (_ & H & _).
Qed.

Lemma expandContext_literals input (c : nat) o st :
  heap_wf (st_heap st) → st_heap st !! c = Some o →
  typeof (st_heap st) (VRef c) = "object" →
  Forall (λ e, instanceof (st_heap st) e.2 SideInputParam_prototype = false)
         (props o) →
  expandContext G I A (VRef c) input st
  = (with_heap (λ h, h ++ [Object (Some c) (own_entries (props o)) IOrdinary]) st,
     Ok (VRef (length (st_heap st)), ∅)).
Proof.
  intros Hwf Hc Hty Hlit. unfold expandContext. munfold.
  rewrite typeof_object_eqb by done. munfold.
  unfold entries. rewrite lookup_app_l, Hc by (by eapply lookup_lt_Some).
  erewrite (for_of_literals input (st_heap st) (Some c) IOrdinary []
              (own_entries (props o)) []); [| done | done |].
  - unfold with_heap. simpl. rewrite fold_own_set_fresh; [done|].
    apply own_entries_nodup. by eapply heap_wf_nodup.
  - apply Forall_and. split; [by eapply entries_allocated|].
    by rewrite own_entries_Permutation.
Qed.

(** The state of the loop once the entries before a side input are done. *)
Lemma expandContext_single_ok input (c : nat) o st L1 k (p : nat) L2
    sid mid mpc spc ws wfn pat :
  heap_wf (st_heap st) → st_heap st !! c = Some o →
  typeof (st_heap st) (VRef c) = "object" →
  own_entries (props o) = L1 ++ (k, VRef p) :: L2 →
  Forall (λ e, instanceof (st_heap st) e.2 SideInputParam_prototype = false)
         (L1 ++ L2) →
  instanceof (st_heap st) (VRef p) SideInputParam_prototype = true →
  allocated (length (st_heap st)) input →
  getId (st_heap st) (get (st_heap st) p "pcoll") = Ok sid →
  getId (st_heap st) input = Ok mid →
  runnerApi.pcollections (components (pipeline st)) !! mid = Some mpc →
  runnerApi.pcollections (components (pipeline st)) !! sid = Some spc →
  runnerApi.windowingStrategies (components (pipeline st))
    !! runnerApi.windowingStrategyId spc = Some ws →
  runnerApi.windowFn ws = Some wfn →
  get_prop (st_heap st) (get (st_heap st) p "accessor") "accessPattern" = Ok pat →
  expandContext G I A (VRef c) input st
  = (mkState
       (st_heap st ++
          [Object (Some c) (L1 ++ (k, VRef (S (length (st_heap st)))) :: L2)
             IOrdinary;
           Object (Some p) [("sideInputId", VString ("side." +:+ k))]
             IOrdinary])
       (pipeline st)
       (runnerApi.mkPTransform
          (<["side." +:+ k := sid]> (runnerApi.inputs (transformProto st)))
          (runnerApi.outputs (transformProto st))
          (runnerApi.spec (transformProto st))),
     Ok (VRef (length (st_heap st)),
         {["side." +:+ k :=
            runnerApi.mkSideInput
              (runnerApi.mkAccessPattern pat [])
              (runnerApi.mkFunctionSpec "unused" [])
              (runnerApi.mkWindowMappingFn
                 (windowMappingFn_urn G I A
                    (String.eqb (runnerApi.urn wfn)
                       "beam:window_fn:global_windows:v1")
                    (runnerApi.windowingStrategyId mpc)
                    (runnerApi.windowingStrategyId spc))
                 [])]})).
Proof.
  intros Hwf Hc Hty Hes Hlit Hinst Hin Hsid Hmid Hmpc Hspc Hws Hwfn Hpat.
  pose proof (entries_allocated _ _ _ Hwf Hc) as Hal.
  pose proof (own_entries_nodup _ (heap_wf_nodup _ _ _ Hwf Hc)) as Hnd.
  rewrite Hes in Hal, Hnd.
  apply Forall_app in Hal as [Hal1 Hal2].
  apply Forall_cons in Hal2 as [Hp Hal2]. simpl in Hp.
  apply Forall_app in Hlit as [Hlit1 Hlit2].
  unfold expandContext. munfold.
  rewrite typeof_object_eqb by done. munfold.
  unfold entries. rewrite lookup_app_l, Hc by (by eapply lookup_lt_Some).
  rewrite Hes, for_of_app.
  erewrite (for_of_literals input (st_heap st) (Some c) IOrdinary [] L1 []);
    [| done | done | by apply Forall_and].
  rewrite fold_own_set_fresh.
  2:{ simpl. rewrite fmap_app in Hnd. by apply NoDup_app in Hnd as (? & _). }
  cbn [for_of app]. unfold mbind at 1, M_bind at 1.
  erewrite context_entry_side_input; [| done | done | done | done].
  erewrite side_input_entry_ok; [| done | done | done | done | done | done
                                  | done | done | done | done | done ].
  cbn [st_heap with_heap pipeline transformProto runnerApi.inputs
       runnerApi.outputs runnerApi.spec].
  rewrite own_set_fresh.
  2:{ apply own_lookup_None. rewrite fmap_app in Hnd.
      apply NoDup_app in Hnd as (_ & Hd & _). intros Hk. apply (Hd _ Hk). left. }
  erewrite (for_of_literals input (st_heap st) (Some c) IOrdinary _ L2);
    [| done | done | by apply Forall_and].
  rewrite fold_own_set_fresh.
  2:{ rewrite !fmap_app in *. simpl in *. by rewrite <- app_assoc. }
  munfold. unfold with_heap. simpl.
  rewrite length_app, Nat.add_1_r, insert_empty, <- !app_assoc. done.
Qed.


(** *** What the context extraction leaves alone *)

Lemma frames_ret {X} (x : X) : frames (mret x).
Proof. by intros st. Qed.

Lemma frames_lift {X} (r : result X) : frames (lift r).
Proof. by intros st. Qed.

Lemma frames_gets {X} (f : state → X) : frames (gets f).
Proof. by intros st. Qed.

Lemma frames_defined {X} (o : option X) : frames (defined o).
Proof. by destruct o; intros st. Qed.

Lemma frames_with_heap f : frames (modify (with_heap f)).
Proof. by intros st. Qed.

Lemma frames_with_inputs f : frames (modify (with_inputs f)).
Proof. by intros st. Qed.

Lemma frames_bind {X Y} (m : M X) (f : X → M Y) :
  frames m → (∀ x, frames (f x)) → frames (m ≫= f).
Proof.
  intros Hm Hf st. unfold mbind, M_bind.
  destruct (Hm st) as (E1 & E2 & E3).
  destruct (m st) as [st' [x|e]]; simpl in *.
  - destruct (Hf x st') as (F1 & F2 & F3). by rewrite F1, F2, F3.
  - done.
Qed.

Lemma frames_for_of {X Y} (l : list X) (body : X → Y → M Y) :
  (∀ x acc, frames (body x acc)) → ∀ acc, frames (for_of l acc body).
Proof.
  intros Hb. induction l as [|x l IH]; intros acc; simpl.
  - apply frames_ret.
  - apply frames_bind; [apply Hb | apply IH].
Qed.

Ltac frames_step :=
  first [ apply frames_ret | apply frames_lift | apply frames_gets
        | apply frames_defined | apply frames_with_heap
        | apply frames_with_inputs
        | apply frames_bind; [| intros ?] ].

Lemma frames_side_input_entry input cc k v sis :
  frames (side_input_entry G I A input cc k v sis).
Proof.
  unfold side_input_entry.
  repeat frames_step.
  match goal with x : _ * _ |- _ => destruct x end.
  repeat frames_step.
Qed.

Lemma frames_context_entry input cc e sis :
  frames (context_entry G I A input cc e sis).
Proof.
  unfold context_entry. destruct e as [k v]. frames_step; [frames_step|].
  destruct (instanceof _ _ _); [apply frames_side_input_entry|].
  repeat frames_step.
Qed.

Lemma frames_expandContext context input :
  frames (expandContext G I A context input).
Proof.
  unfold expandContext. frames_step; [frames_step|].
  destruct (String.eqb _ _); [|frames_step].
  frames_step; [frames_step|]. destruct x0.
  repeat frames_step.
  apply frames_for_of. intros. apply frames_context_entry.
Qed.
End Expansion.

(** * The properties *)

Section Properties.
Import JS JSFacts.

Variables (G I A L : string) (toBinary : runnerApi.ParDoPayload → list byte).

#[local] Arguments get : simpl never.
#[local] Arguments set_prop : simpl never.
#[local] Arguments delete_prop : simpl never.
#[local] Arguments String.append : simpl never.
#[local] Arguments String.eqb : simpl never.



(** On a heap without attributes.  A context with exactly one side
    input, under key [k], whose dataset resolves in the registry: the
    descriptor gains the one input ["side." + k] holding the side
    dataset's id, the side-input mapping is the single entry ["side." + k]
    whose access pattern urn is the accessor's [accessPattern], and the
    rewritten context holds under [k] a copy, distinct from the parameter
    and inheriting from it, whose [sideInputId] is ["side." + k]. *)
Lemma expandContext_single_side_input input (c : nat) o st L1 k (p : nat) L2
    sid mid mpc spc ws wfn pat :
  heap_wf (st_heap st) → st_heap st !! c = Some o →
  typeof (st_heap st) (VRef c) = "object" →
  own_entries (props o) = L1 ++ (k, VRef p) :: L2 →
  Forall (λ e, instanceof (st_heap st) e.2 SideInputParam_prototype = false)
         (L1 ++ L2) →
  instanceof (st_heap st) (VRef p) SideInputParam_prototype = true →
  allocated (length (st_heap st)) input →
  getId (st_heap st) (get (st_heap st) p "pcoll") = Ok sid →
  getId (st_heap st) input = Ok mid →
  runnerApi.pcollections (components (pipeline st)) !! mid = Some mpc →
  runnerApi.pcollections (components (pipeline st)) !! sid = Some spc →
  runnerApi.windowingStrategies (components (pipeline st))
    !! runnerApi.windowingStrategyId spc = Some ws →
  runnerApi.windowFn ws = Some wfn →
  get_prop (st_heap st) (get (st_heap st) p "accessor") "accessPattern" = Ok pat →
  ∃ st' (contextCopy copy : nat) si,
    expandContext G I A (VRef c) input st
      = (st', Ok (VRef contextCopy, {["side." +:+ k := si]}))
    ∧ runnerApi.inputs (transformProto st')
      = <["side." +:+ k := sid]> (runnerApi.inputs (transformProto st))
    ∧ (runnerApi.inputs (transformProto st) !! ("side." +:+ k) = None →
       size (runnerApi.inputs (transformProto st'))
       = S (size (runnerApi.inputs (transformProto st))))
    ∧ runnerApi.ap_urn (runnerApi.accessPattern si) = pat
    ∧ get (st_heap st') contextCopy k = VRef copy
    ∧ copy ≠ p
    ∧ st_heap st' !! copy
      = Some (Object (Some p) [("sideInputId", VString ("side." +:+ k))]
                IOrdinary)
    ∧ get (st_heap st') copy "sideInputId" = VString ("side." +:+ k).
Proof.
  intros Hwf Hc Hty Hes Hlit Hinst Hin Hsid Hmid Hmpc Hspc Hws Hwfn Hpat.
  erewrite expandContext_single_ok by done.
  pose proof (entries_allocated _ _ _ Hwf Hc) as Hal.
  pose proof (own_entries_nodup _ (heap_wf_nodup _ _ _ Hwf Hc)) as Hnd.
  rewrite Hes in Hal, Hnd.
  apply Forall_app in Hal as [_ [Hp _]%Forall_cons]. simpl in Hp.
  eexists _, (length (st_heap st)), (S (length (st_heap st))), _.
  split; [done|]. cbn [st_heap transformProto runnerApi.inputs].
  split; [done|]. split; [intros Hn; by rewrite map_size_insert_None|].
  split; [done|]. split; [|split; [lia|split]].
  - rewrite get_heir; [| by apply heap_wf_protos | by eapply lookup_lt_Some].
    rewrite own_lookup_app.
    replace (own_lookup k L1) with (@None value).
    + simpl. by rewrite String.eqb_refl.
    + symmetry. apply own_lookup_None. rewrite fmap_app in Hnd.
      apply NoDup_app in Hnd as (_ & Hd & _). intros Hk. apply (Hd _ Hk). left.
  - rewrite lookup_app_r by lia.
    by replace (S (length (st_heap st)) - length (st_heap st)) with 1 by lia.
  - eapply get_own.
    + rewrite lookup_app_r by lia.
      by replace (S (length (st_heap st)) - length (st_heap st)) with 1 by lia.
    + reflexivity.
Qed.

Lemma expansion_builds_pardo_spec_aux doFn context input st st1 contextCopy
    sideInputs :
  expandContext G I A context input st = (st1, Ok (contextCopy, sideInputs)) →
  ∃ st2 (out : nat),
    expandInternal G I A L toBinary doFn context input st = (st2, Ok (VRef out))
    ∧ runnerApi.spec (transformProto st2)
      = Some (runnerApi.mkFunctionSpec "beam:transform:pardo:v1"
                (toBinary
                   (runnerApi.mkParDoPayload
                      (runnerApi.mkFunctionSpec L
                         (TextEncoder_encode (exportName doFn)))
                      sideInputs))).
Proof.
  intros Hctx. unfold expandInternal, mbind, M_bind. rewrite Hctx.
  unfold modify, createPCollectionInternal, alloc. simpl. by eexists _, _.
Qed.

(** C3. Whenever the context extraction succeeds, the expansion sets the
    descriptor's spec to the urn ["beam:transform:pardo:v1"] with the
    encoding of the [ParDoPayload] made of the DoFn spec (the export-name
    urn, the UTF-8 bytes of [exportName]: the very bytes of the name when
    it has no lone surrogate) and the extracted side-input mapping, and
    returns a dataset handle that did not exist before, owned by the
    pipeline, with the general object coder. *)
Theorem expansion_builds_pardo_spec doFn context input st st1 contextCopy
    sideInputs :
  expandContext G I A context input st = (st1, Ok (contextCopy, sideInputs)) →
  ∃ st2 (out : nat) id,
    expandInternal G I A L toBinary doFn context input st = (st2, Ok (VRef out))
    ∧ runnerApi.spec (transformProto st2)
      = Some (runnerApi.mkFunctionSpec "beam:transform:pardo:v1"
                (toBinary
                   (runnerApi.mkParDoPayload
                      (runnerApi.mkFunctionSpec L
                         (TextEncoder_encode (exportName doFn)))
                      sideInputs)))
    ∧ (well_formed (exportName doFn) = true →
       TextEncoder_encode (exportName doFn)
       = list_byte_of_string (exportName doFn))
    ∧ runnerApi.inputs (transformProto st2) = runnerApi.inputs (transformProto st1)
    ∧ st_heap st1 !! out = None
    ∧ st_heap st2 !! out
      = Some (Object (Some Object_prototype) []
                (IPCollection id (self (pipeline st)) GeneralObjectCoder))
    ∧ st_heap st2
      = st_heap st1 ++
          [Object (Some Object_prototype) []
             (IPCollection id (self (pipeline st)) GeneralObjectCoder)].
Proof.
  intros Hctx.
  destruct (frames_expandContext G I A context input st) as (Hpl & _ & _).
  rewrite Hctx in Hpl. simpl in Hpl.
  unfold expandInternal, mbind, M_bind. rewrite Hctx.
  unfold modify, createPCollectionInternal, alloc. simpl.
  eexists _, (length (st_heap st1)), _. split; [done|]. simpl.
  split; [done|]. split; [apply TextEncoder_encode_well_formed|].
  split; [done|]. split; [by apply lookup_ge_None|].
  rewrite Hpl. split; [by apply list_lookup_middle | done].
Qed.

(** On a heap without attributes.  A context object none of whose
    entries is a side input: the side-input mapping is empty; the
    rewritten context is a new object with the entries of the context, in
    the same order and with the very same values, and reads of any key
    agree with the context; the context itself, the descriptor and the
    pipeline are as before. *)
Lemma expandContext_literal_context input (c : nat) o st :
  heap_wf (st_heap st) → st_heap st !! c = Some o →
  typeof (st_heap st) (VRef c) = "object" →
  Forall (λ e, instanceof (st_heap st) e.2 SideInputParam_prototype = false)
         (props o) →
  ∃ st' (contextCopy : nat) o',
    expandContext G I A (VRef c) input st = (st', Ok (VRef contextCopy, ∅))
    ∧ contextCopy ≠ c
    ∧ st_heap st' !! contextCopy = Some o'
    ∧ entries (st_heap st') contextCopy = entries (st_heap st) c
    ∧ (∀ k v, (k, v) ∈ props o → own_lookup k (props o') = Some v)
    ∧ (∀ k, own_lookup k (props o') = own_lookup k (props o))
    ∧ (∀ k, get (st_heap st') contextCopy k = get (st_heap st) c k)
    ∧ st_heap st' !! c = Some o
    ∧ transformProto st' = transformProto st
    ∧ pipeline st' = pipeline st.
Proof.
  intros Hwf Hc Hty Hlit.
  rewrite (expandContext_literals G I A input c o st) by done.
  pose proof (lookup_lt_Some _ _ _ Hc) as Hlt.
  pose proof (heap_wf_nodup _ _ _ Hwf Hc) as Hnd.
  eexists _, (length (st_heap st)), _. split; [done|]. simpl.
  split; [lia|]. split; [by apply list_lookup_middle|]. simpl.
  split; [|split; [|split; [|split; [|split]]]].
  - unfold entries. rewrite list_lookup_middle, Hc by done.
    simpl. apply own_entries_idemp.
  - intros k v Hkv. rewrite own_lookup_own_entries by done.
    by apply own_lookup_elem.
  - intros k. by apply own_lookup_own_entries.
  - intros k. rewrite get_heir by (done || by apply heap_wf_protos).
    rewrite own_lookup_own_entries by done.
    destruct (own_lookup k (props o)) as [v|] eqn:Hk; [|done].
    symmetry. by eapply get_own.
  - by rewrite lookup_app_l.
  - done.
Qed.

(** A context whose [typeof] is not ["object"] is handed back as it is,
    with no side input. *)
Lemma expandContext_not_object context input st :
  typeof (st_heap st) context ≠ "object" →
  expandContext G I A context input st = (st, Ok (context, ∅)).
Proof.
  intros Hty. unfold expandContext, mbind, M_bind, gets. simpl.
  by rewrite (proj2 (String.eqb_neq _ _) Hty).
Qed.

(** C7. The context [null] is not a keyed mapping, yet [typeof null] is
    ["object"]: the expansion enters the object branch, allocates the copy
    and throws a [TypeError] at [Object.entries(null)], instead of handing
    the context back with an empty side-input mapping. *)
Theorem null_context_throws doFn input st :
  expandContext G I A VNull input st
    = (with_heap (λ h, h ++ [Object None [] IOrdinary]) st, Throw TypeError)
  ∧ expandInternal G I A L toBinary doFn VNull input st
    = (with_heap (λ h, h ++ [Object None [] IOrdinary]) st, Throw TypeError).
Proof.
  assert (E : expandContext G I A VNull input st
    = (with_heap (λ h, h ++ [Object None [] IOrdinary]) st, Throw TypeError))
    by done.
  split; [done|]. unfold expandInternal, mbind, M_bind. by rewrite E.
Qed.


End Properties.

(** ** Tagged copies *)

Section Tagging.
Import JS JSFacts.

#[local] Arguments copySideInputWithId : simpl never.
#[local] Arguments get : simpl never.
#[local] Arguments set_prop : simpl never.
#[local] Arguments delete_prop : simpl never.
#[local] Arguments String.eqb : simpl never.

Lemma copySideInputWithId_tagged h (p : nat) id :
  copySideInputWithId h (VRef p) id = Ok (h ++ [tagged p id], VRef (length h)).
Proof.
  unfold copySideInputWithId, Object_create, alloc.
  by rewrite set_prop_middle, delete_prop_middle.
Qed.

Lemma tag_each_tagged (p : nat) (ids : list string) : ∀ h,
  tag_each h (VRef p) ids
  = Ok (h ++ (tagged p <$> ids), VRef <$> seq (length h) (length ids)).
Proof.
  induction ids as [|id ids IH]; intros h; cbn [tag_each].
  - simpl. by rewrite app_nil_r.
  - rewrite copySideInputWithId_tagged, IH.
    rewrite length_app, Nat.add_1_r, <- app_assoc. done.
Qed.

Lemma set_prop_app_r h C (i : nat) k v :
  set_prop (h ++ C) (length h + i) k v = h ++ set_prop C i k v.
Proof.
  unfold set_prop. rewrite lookup_app_r by lia.
  replace (length h + i - length h) with i by lia.
  destruct (C !! i); [|done].
  rewrite insert_app_r_alt by lia.
  by replace (length h + i - length h) with i by lia.
Qed.

Lemma set_prop_lookup_ne h (i j : nat) k v :
  i ≠ j → set_prop h i k v !! j = h !! j.
Proof.
  intros Hne. unfold set_prop. destruct (h !! i); [|done].
  by rewrite list_lookup_insert_ne.
Qed.

Lemma tagged_lookup (p : nat) (ids : list string) (j : nat) o :
  (tagged p <$> ids) !! j = Some o → proto o = Some p.
Proof.
  rewrite list_lookup_fmap. destruct (ids !! j); [|done]. by intros [= <-].
Qed.

(** C5. Tagging a declared side-input parameter any number of times:
    every tagging yields a new object, distinct from the parameter and from
    every other copy, carrying its own tag; a later write to one copy is
    seen neither through another copy nor through the parameter; and the
    parameter itself is the object it was, its [sideInputId] still unset. *)
Theorem tagging_is_copy_only h (p : nat) (ids : list string) :
  heap_wf h → p < length h → get h p "sideInputId" = VUndefined →
  ∃ h' copies,
    tag_each h (VRef p) ids = Ok (h', copies)
    ∧ length copies = length ids
    ∧ NoDup copies
    ∧ (VRef p ∉ copies)
    ∧ (∀ (i : nat) id, ids !! i = Some id →
         ∃ c : nat, (copies !! i = Some (VRef c)
                     ∧ get h' c "sideInputId" = VString id))
    ∧ (∀ (i j ci cj : nat) k v k',
         i ≠ j → copies !! i = Some (VRef ci) → copies !! j = Some (VRef cj) →
         get (set_prop h' ci k v) cj k' = get h' cj k')
    ∧ (∀ (i ci : nat) k v k',
         copies !! i = Some (VRef ci) →
         get (set_prop h' ci k v) p k' = get h' p k')
    ∧ h' !! p = h !! p
    ∧ get h' p "sideInputId" = VUndefined.
Proof.
  intros Hwf Hp Hunset. rewrite tag_each_tagged.
  pose proof (heap_wf_protos _ Hwf) as Hpr.
  assert (Hcopies : ∀ (i ci : nat),
            (VRef <$> seq (length h) (length ids)) !! i = Some (VRef ci) →
            ci = length h + i ∧ i < length ids).
  { intros i ci. rewrite list_lookup_fmap.
    destruct (seq _ _ !! i) as [x|] eqn:Hx; [|done].
    apply lookup_seq in Hx as [-> ?]. by intros [= <-]. }
  eexists _, _. split; [done|].
  split; [by rewrite length_fmap, length_seq|].
  split; [apply NoDup_fmap_2; [by intros ?? [=] | apply NoDup_seq]|].
  split.
  { intros [x [[= <-] Hx]]%list_elem_of_fmap. apply elem_of_seq in Hx. lia. }
  split.
  { intros i id Hi. exists (length h + i). split.
    - rewrite list_lookup_fmap, lookup_seq_lt; [done|by eapply lookup_lt_Some].
    - erewrite get_suffix; [| done | by rewrite list_lookup_fmap, Hi | done | done].
      reflexivity. }
  split.
  { intros i j ci cj k v k' Hne [-> Hi]%Hcopies [-> Hj]%Hcopies.
    rewrite set_prop_app_r.
    destruct (lookup_lt_is_Some_2 (tagged p <$> ids) j) as [o Ho];
      [by rewrite length_fmap|].
    erewrite !get_suffix;
      [ done | done | done | by eapply tagged_lookup | done | done
      | by rewrite set_prop_lookup_ne | by eapply tagged_lookup | done ]. }
  split.
  { intros i ci k v k' [-> Hi]%Hcopies.
    rewrite set_prop_app_r. by rewrite !get_app. }
  split; [by rewrite lookup_app_l|].
  by rewrite get_app.
Qed.

(** C10. The tagged copy is a new object whose prototype is the
    parameter and whose only own property is [sideInputId]: [pcoll] and
    [accessor] read through the copy are the values the parameter holds, a
    later write to the parameter's [pcoll] shows through the copy, the
    [delete copy.pcoll] leaves the heap as it was, and the parameter keeps
    no [sideInputId] of its own. *)
Theorem tagged_copy_shares_backing h (p : nat) o id :
  heap_wf h → h !! p = Some o → own_lookup "sideInputId" (props o) = None →
  ∃ h' (copy : nat),
    copySideInputWithId h (VRef p) id = Ok (h', VRef copy)
    ∧ copy ≠ p
    ∧ h' !! copy = Some (Object (Some p) [("sideInputId", VString id)] IOrdinary)
    ∧ get h' copy "pcoll" = get h p "pcoll"
    ∧ get h' copy "accessor" = get h p "accessor"
    ∧ (∀ v, get (set_prop h' p "pcoll" v) copy "pcoll" = v)
    ∧ delete_prop
        (set_prop (h ++ [Object (Some p) [] IOrdinary]) copy "sideInputId"
           (VString id)) copy "pcoll"
      = set_prop (h ++ [Object (Some p) [] IOrdinary]) copy "sideInputId"
          (VString id)
    ∧ h' !! p = Some o
    ∧ get h' copy "sideInputId" = VString id
    ∧ get h' p "sideInputId" = get h p "sideInputId".
Proof.
  intros Hwf Hp Hown. rewrite copySideInputWithId_tagged. unfold tagged.
  pose proof (lookup_lt_Some _ _ _ Hp) as Hlt.
  pose proof (heap_wf_protos _ Hwf) as Hpr.
  eexists _, (length h). split; [done|]. split; [lia|].
  split; [by apply list_lookup_middle|].
  split; [by rewrite get_heir|]. split; [by rewrite get_heir|].
  split.
  { intros v. rewrite set_prop_app_l by done.
    rewrite <- (set_prop_length h p "pcoll" v).
    rewrite get_heir;
      [| by apply set_prop_protos | by rewrite set_prop_length].
    simpl. unfold set_prop. rewrite Hp.
    eapply get_own; [by apply list_lookup_insert_eq|].
    simpl. by rewrite own_lookup_own_set, String.eqb_refl. }
  split; [by rewrite set_prop_middle, delete_prop_middle|].
  split; [by rewrite lookup_app_l|].
  split; [by rewrite get_heir|].
  by rewrite get_app.
Qed.

End Tagging.

(** ** The binding contract *)

Section BindingContract.
Import JS.

Variable W : Type.
Variable provider_at : nat → option (ParamProvider W).

(** C4. On a parameter whose [provider] is unset, [lookup] and [update]
    throw the usage error at once and leave the runtime as it is; on a
    parameter whose [provider] is a provider object, [lookup] is the
    provider's answer for this very parameter, and [update] is one call of
    the provider's [update] with this parameter and the value as given. *)
Theorem binding_contract h (this : nat) (v : value) (w : W) :
  (get h this "provider" = VUndefined →
     lookup W provider_at h this w
       = (w, Throw (Error "Cannot be called outside of a DoFn's process method."))
     ∧ update W provider_at h this v w
       = (w, Throw (Error "Cannot be called outside of a DoFn's process method.")))
  ∧ (∀ (p : nat) P,
       get h this "provider" = VRef p → provider_at p = Some P →
       lookup W provider_at h this w = provider_lookup W P this w
       ∧ update W provider_at h this v w = provider_update W P this v w).
Proof.
  split.
  - intros Hun. unfold lookup, update. by rewrite Hun.
  - intros p P Hp HP. unfold lookup, update, provider_of.
    by rewrite Hp, HP.
Qed.

End BindingContract.

(** * The sample pipeline, checked against the properties *)

Section SampleChecks.
Import JS JSFacts Sample.

Lemma sample_heap_wf : heap_wf context_alloc.1.
Proof. apply heap_wfb_spec. vm_compute. reflexivity. Qed.

Lemma sample_param_heap_wf : heap_wf param_alloc.1.
Proof. apply heap_wfb_spec. vm_compute. reflexivity. Qed.

Lemma sample_literal_heap_wf : heap_wf literal_context_alloc.1.
Proof. apply heap_wfb_spec. vm_compute. reflexivity. Qed.


(** The end-to-end example, up to the returned handle. *)
Lemma expansion_builds_pardo_spec_witness :
  ∃ sideInputs st2 (out : nat) id,
    expandInternal GLOBAL IDENTITY ASSIGN_MAX EXPORT toBinary double
      (VRef context) main (start context_alloc.1 (registry fixed_windows))
    = (st2, Ok (VRef out))
    ∧ is_Some (sideInputs !! "side.threshold")
    ∧ runnerApi.spec (transformProto st2)
      = Some (runnerApi.mkFunctionSpec "beam:transform:pardo:v1"
                (toBinary
                   (runnerApi.mkParDoPayload
                      (runnerApi.mkFunctionSpec EXPORT
                         ["d"; "o"; "u"; "b"; "l"; "e"]%byte)
                      sideInputs)))
    ∧ st_heap st2 !! out
      = Some (Object (Some Object_prototype) []
                (IPCollection id pipeline_loc GeneralObjectCoder)).
Proof.
  edestruct (expansion_builds_pardo_spec GLOBAL IDENTITY ASSIGN_MAX EXPORT
               toBinary double (VRef context) main
               (start context_alloc.1 (registry fixed_windows)))
    as (st2 & out & id & H1 & H2 & H3 & _ & _ & H5 & _).
  { apply (expandContext_single_ok GLOBAL IDENTITY ASSIGN_MAX main context
             sample_context_object
             (start context_alloc.1 (registry fixed_windows))
             [("limit", VNumber 3)] "threshold" param []
             "sideId" "mainId"
             (runnerApi.mkPCollection "W1") (runnerApi.mkPCollection "W2")
             fixed_windows
             (runnerApi.mkFunctionSpec "beam:window_fn:fixed_windows:v1" [])
             (VString "beam:side_input:iterable:v1")).
    - exact sample_heap_wf.
    - reflexivity.
    - reflexivity.
    - reflexivity.
    - repeat constructor.
    - reflexivity.
    - simpl. lia.
    - reflexivity.
    - reflexivity.
    - vm_compute. reflexivity.
    - vm_compute. reflexivity.
    - vm_compute. reflexivity.
    - reflexivity.
    - reflexivity. }
  rewrite (H3 eq_refl) in H2.
  eexists _, st2, out, id. split; [exact H1|].
  split; [|split; [exact H2|]].
  - rewrite lookup_singleton_eq. by eexists.
  - exact H5.
Defined.

(** An unbound parameter refuses; a parameter bound to the recording
    runtime passes one update on, with itself and the value. *)
Lemma binding_contract_witness :
  lookup _ provider_at declared_alloc.1 declared_alloc.2 []
    = ([], Throw (Error "Cannot be called outside of a DoFn's process method."))
  ∧ update _ provider_at declared_alloc.1 declared_alloc.2 (VNumber 4) []
    = ([], Throw (Error "Cannot be called outside of a DoFn's process method."))
  ∧ lookup _ provider_at bound_heap declared_alloc.2 [] = ([], Ok (VNumber 0))
  ∧ update _ provider_at bound_heap declared_alloc.2 (VNumber 4) []
    = ([(declared_alloc.2, VNumber 4)], Ok tt).
Proof.
  destruct (binding_contract _ provider_at declared_alloc.1 declared_alloc.2
              (VNumber 4) []) as [Hunbound _].
  destruct (binding_contract _ provider_at bound_heap declared_alloc.2
              (VNumber 4) []) as [_ Hbound].
  destruct (Hunbound eq_refl) as [H1 H2].
  destruct (Hbound provider_loc recorder eq_refl eq_refl) as [H3 H4].
  split; [exact H1|]. split; [exact H2|]. split; [exact H3 | exact H4].
Defined.

(** The sample parameter tagged twice under the same id. *)
Lemma tagging_is_copy_only_witness :
  ∃ h' (c1 c2 : nat),
    tag_each param_alloc.1 (VRef param) ["side.threshold"; "side.threshold"]
    = Ok (h', [VRef c1; VRef c2])
    ∧ c1 ≠ c2 ∧ c1 ≠ param ∧ c2 ≠ param
    ∧ get h' c1 "sideInputId" = VString "side.threshold"
    ∧ get h' c2 "sideInputId" = VString "side.threshold"
    ∧ get h' param "sideInputId" = VUndefined.
Proof.
  destruct (tagging_is_copy_only param_alloc.1 param
              ["side.threshold"; "side.threshold"])
    as (h' & copies & H1 & _ & _ & _ & H5 & _ & _ & _ & H9).
  - exact sample_param_heap_wf.
  - vm_compute. lia.
  - reflexivity.
  - assert (E : copies = [VRef 12; VRef 13]).
    { vm_compute in H1. by injection H1 as _ <-. }
    subst copies. exists h', 12, 13. split; [exact H1|].
    destruct (H5 0 _ eq_refl) as (c1 & [= <-] & G1).
    destruct (H5 1 _ eq_refl) as (c2 & [= <-] & G2).
    unfold param. simpl. repeat split; try lia; assumption.
Defined.



(** The claim of C9 fails for the DoFn with the empty export name: the
    build returns a transform, whose expansion succeeds and emits an empty
    DoFn payload. *)
Lemma empty_exportName_counterexample :
  exportName unnamed = ""
  ∧ (expand (localParDo GLOBAL IDENTITY ASSIGN_MAX EXPORT toBinary unnamed
               VUndefined heap0).2 main
       (start heap0 (registry fixed_windows))).2 = Ok (VRef 10)
  ∧ runnerApi.spec
      (transformProto
         (expand (localParDo GLOBAL IDENTITY ASSIGN_MAX EXPORT toBinary unnamed
                    VUndefined heap0).2 main
            (start heap0 (registry fixed_windows))).1)
    = Some (runnerApi.mkFunctionSpec "beam:transform:pardo:v1"
              (toBinary (runnerApi.mkParDoPayload
                           (runnerApi.mkFunctionSpec EXPORT []) ∅))).
Proof. vm_compute. repeat split; reflexivity. Qed.

(** The sample parameter and its tagged copy. *)
Lemma tagged_copy_shares_backing_witness :
  ∃ h' (copy : nat),
    copySideInputWithId param_alloc.1 (VRef param) "side.threshold"
    = Ok (h', VRef copy)
    ∧ copy ≠ param
    ∧ get h' copy "pcoll" = side
    ∧ get h' copy "accessor" = VRef accessor_alloc.2
    ∧ props <$> h' !! copy = Some [("sideInputId", VString "side.threshold")]
    ∧ get h' param "sideInputId" = VUndefined.
Proof.
  destruct (tagged_copy_shares_backing param_alloc.1 param
              (Object (Some SideInputParam_prototype)
                 [("parDoParamName", VString "sideInput"); ("pcoll", side);
                  ("accessor", VRef accessor_alloc.2)] IOrdinary)
              "side.threshold")
    as (h' & copy & H1 & H2 & H3 & H4 & H5 & _ & _ & _ & _ & H10).
  - exact sample_param_heap_wf.
  - reflexivity.
  - reflexivity.
  - exists h', copy. split; [exact H1|]. split; [exact H2|].
    split; [by rewrite H4|]. split; [by rewrite H5|].
    split; [by rewrite H3 | by rewrite H10].
Defined.
End SampleChecks.

(** * Further properties of the expansion *)

Section WholeExpansion.
Import JS JSFacts.

Variables (G I A L : string) (toBinary : runnerApi.ParDoPayload → list byte).

#[local] Arguments get : simpl never.
#[local] Arguments set_prop : simpl never.
#[local] Arguments delete_prop : simpl never.
#[local] Arguments String.append : simpl never.
#[local] Arguments String.eqb : simpl never.

(** *** Existing objects are never written *)

Lemma set_prop_prefix h0 h (l : nat) k v :
  h0 `prefix_of` h → length h0 ≤ l → h0 `prefix_of` set_prop h l k v.
Proof.
  intros [r ->] Hl. exists (set_prop r (l - length h0) k v).
  replace l with (length h0 + (l - length h0)) at 1 by lia.
  apply set_prop_app_r.
Qed.

Lemma delete_prop_prefix h0 h (l : nat) k :
  h0 `prefix_of` h → length h0 ≤ l → h0 `prefix_of` delete_prop h l k.
Proof.
  intros [r ->] Hl. unfold delete_prop.
  destruct ((h0 ++ r) !! l); [|by exists r].
  rewrite insert_app_r_alt by done. by eexists.
Qed.

Lemma copySideInputWithId_prefix h0 h v id h1 c :
  h0 `prefix_of` h → copySideInputWithId h v id = Ok (h1, c) →
  h0 `prefix_of` h1.
Proof.
  intros Hp. unfold copySideInputWithId, Object_create, alloc.
  pose proof (prefix_length _ _ Hp) as Hlen.
  destruct v; try done; intros [= <- <-];
    (apply delete_prop_prefix;
     [apply set_prop_prefix; [by apply prefix_app_r | done] | done]).
Qed.

Lemma keeps_side_input_entry h0 input (cc : nat) k v sis :
  length h0 ≤ cc → keeps h0 (side_input_entry G I A input cc k v sis).
Proof.
  intros Hcc st Hp.
  unfold side_input_entry, mbind, M_bind, mret, M_ret, gets, modify, lift,
    throw, defined. simpl.
  destruct (get_prop (st_heap st) v "pcoll") as [pc|]; [|done].
  destruct (getId (st_heap st) pc) as [sid|]; [|done]. simpl.
  destruct (copySideInputWithId (st_heap st) v ("side." +:+ k))
    as [[h1 c]|] eqn:Hcopy; [|done]. simpl.
  assert (Hp1 : h0 `prefix_of` set_prop h1 cc k c).
  { apply set_prop_prefix; [|done]. by eapply copySideInputWithId_prefix. }
  repeat (case_match; unfold mret, M_ret, throw in *; simpl in *;
          simplify_eq; try done).
Qed.

Lemma keeps_context_entry h0 input (cc : nat) e sis :
  length h0 ≤ cc → keeps h0 (context_entry G I A input cc e sis).
Proof.
  intros Hcc st Hp. destruct e as [k v].
  unfold context_entry, mbind, M_bind, gets. simpl.
  destruct (instanceof (st_heap st) v SideInputParam_prototype).
  - by apply keeps_side_input_entry.
  - simpl. by apply set_prop_prefix.
Qed.

Lemma keeps_for_of h0 {X Y} (l : list X) (body : X → Y → M Y) :
  (∀ x acc, keeps h0 (body x acc)) → ∀ acc, keeps h0 (for_of l acc body).
Proof.
  intros Hb. induction l as [|x l IH]; intros acc st Hp; simpl; [done|].
  unfold mbind, M_bind. specialize (Hb x acc st Hp).
  destruct (body x acc st) as [st' [acc'|e]]; simpl in *; [|done].
  by apply IH.
Qed.

Lemma expandContext_keeps context input st :
  st_heap st `prefix_of` st_heap (expandContext G I A context input st).1.
Proof.
  unfold expandContext, mbind, M_bind, gets, lift, modify. simpl.
  destruct (String.eqb _ _); [|done].
  destruct (Object_create (st_heap st) context) as [[h1 cc]|] eqn:Hc; [|done].
  assert (h1 = st_heap st ++ drop (length (st_heap st)) h1
          ∧ cc = length (st_heap st)) as [Hh1 ->].
  { unfold Object_create, alloc in Hc.
    destruct context; simplify_eq; by rewrite drop_app_length. }
  simpl. destruct (Object_entries h1 context) as [es|]; simpl.
  - pose proof (keeps_for_of (st_heap st) es
                  (context_entry G I A input (length (st_heap st)))
                  (λ e acc, keeps_context_entry _ input _ e acc (le_n _)) ∅
                  (with_heap (λ _, h1) st)) as Hk.
    simpl in Hk.
    destruct (for_of es ∅ _ _) as [st' [sis|e]]; simpl in *;
      apply Hk; rewrite Hh1; by apply prefix_app_r.
  - rewrite Hh1. by apply prefix_app_r.
Qed.

(** X1. Whatever the context, the input and the state, and whether the
    expansion returns or throws, every object that existed before is
    afterwards exactly what it was: the caller's context, its parameters
    and their accessors are never written. *)
Theorem expansion_never_writes_existing_objects doFn context input st :
  st_heap st `prefix_of`
    st_heap (expandInternal G I A L toBinary doFn context input st).1.
Proof.
  pose proof (expandContext_keeps context input st) as Hk.
  unfold expandInternal, mbind, M_bind.
  destruct (expandContext G I A context input st) as [st1 [[cc sis]|e]];
    simpl in *; [|done].
  etrans; [exact Hk|]. by apply prefix_app_r.
Qed.


(** *** What a failed expansion leaves behind *)

Lemma te_ret {X} (x : X) : throws_TypeError_only (mret x).
Proof. by intros st e. Qed.

Lemma te_gets {X} (f : state → X) : throws_TypeError_only (gets f).
Proof. by intros st e. Qed.

Lemma te_modify f : throws_TypeError_only (modify f).
Proof. by intros st e. Qed.

Lemma te_defined {X} (o : option X) : throws_TypeError_only (defined o).
Proof. destruct o; intros st e; [done|]. by intros [= <-]. Qed.

Lemma te_lift {X} (r : result X) :
  (∀ e, r = Throw e → e = TypeError) → throws_TypeError_only (lift r).
Proof. intros Hr st e. apply Hr. Qed.

Lemma te_bind {X Y} (m : M X) (f : X → M Y) :
  throws_TypeError_only m → (∀ x, throws_TypeError_only (f x)) →
  throws_TypeError_only (m ≫= f).
Proof.
  intros Hm Hf st e. unfold mbind, M_bind. specialize (Hm st).
  destruct (m st) as [st' [x|e']]; simpl in *.
  - apply Hf.
  - intros [= <-]. by apply Hm.
Qed.

Lemma te_for_of {X Y} (l : list X) (body : X → Y → M Y) :
  (∀ x acc, throws_TypeError_only (body x acc)) →
  ∀ acc, throws_TypeError_only (for_of l acc body).
Proof.
  intros Hb. induction l as [|x l IH]; intros acc; simpl.
  - apply te_ret.
  - apply te_bind; [apply Hb | apply IH].
Qed.

Lemma get_prop_Throw h v k e : get_prop h v k = Throw e → e = TypeError.
Proof. destruct v; simpl; by intros [= <-]. Qed.

Lemma Object_create_Throw h v e : Object_create h v = Throw e → e = TypeError.
Proof. destruct v; simpl; by intros [= <-]. Qed.

Lemma Object_entries_Throw h v e : Object_entries h v = Throw e → e = TypeError.
Proof. destruct v; simpl; by intros [= <-]. Qed.

Lemma copySideInputWithId_Throw h v id e :
  copySideInputWithId h v id = Throw e → e = TypeError.
Proof.
  unfold copySideInputWithId.
  destruct (Object_create h v) as [[h1 c]|e'] eqn:Hc; [done|].
  intros [= <-]. by eapply Object_create_Throw.
Qed.

Ltac te_step :=
  first [ apply te_ret | apply te_gets | apply te_modify | apply te_defined
        | apply te_lift; first [ apply getId_Throw | apply get_prop_Throw
                               | apply Object_create_Throw
                               | apply Object_entries_Throw
                               | apply copySideInputWithId_Throw ]
        | apply te_bind; [| intros ?] ].

Lemma te_side_input_entry input cc k v sis :
  throws_TypeError_only (side_input_entry G I A input cc k v sis).
Proof.
  unfold side_input_entry. repeat te_step.
  match goal with x : _ * _ |- _ => destruct x end.
  repeat te_step.
Qed.

Lemma te_context_entry input cc e sis :
  throws_TypeError_only (context_entry G I A input cc e sis).
Proof.
  unfold context_entry. destruct e as [k v]. te_step; [te_step|].
  destruct (instanceof _ _ _); [apply te_side_input_entry|].
  repeat te_step.
Qed.

Lemma te_expandContext context input :
  throws_TypeError_only (expandContext G I A context input).
Proof.
  unfold expandContext. te_step; [te_step|].
  destruct (String.eqb _ _); [|te_step].
  te_step; [te_step|]. destruct x0.
  repeat te_step.
  apply te_for_of. intros. apply te_context_entry.
Qed.

(** X2. Whatever the context, the input and the state: when the
    expansion throws, the exception is a [TypeError] (never an [Error] with
    a message of the file's own), the descriptor's spec and outputs are what
    they were, and the pipeline is untouched, so that no output handle was
    allocated. *)
Theorem failed_expansion_builds_nothing doFn context input st st' e :
  expandInternal G I A L toBinary doFn context input st = (st', Throw e) →
  e = TypeError
  ∧ runnerApi.spec (transformProto st') = runnerApi.spec (transformProto st)
  ∧ runnerApi.outputs (transformProto st')
    = runnerApi.outputs (transformProto st)
  ∧ pipeline st' = pipeline st.
Proof.
  unfold expandInternal, mbind, M_bind.
  pose proof (te_expandContext context input st) as Hte.
  destruct (frames_expandContext G I A context input st) as (F1 & F2 & F3).
  destruct (expandContext G I A context input st) as [st1 [[cc sis]|e']];
    simpl in *; [done|].
  intros [= <- <-]. split; [by apply Hte | done].
Qed.

(** *** Which inputs are written *)

Lemma wsi_ret {X} (x : X) : writes_side_inputs_only (mret x).
Proof. by intros st j. Qed.

Lemma wsi_gets {X} (f : state → X) : writes_side_inputs_only (gets f).
Proof. by intros st j. Qed.

Lemma wsi_lift {X} (r : result X) : writes_side_inputs_only (lift r).
Proof. by intros st j. Qed.

Lemma wsi_defined {X} (o : option X) : writes_side_inputs_only (defined o).
Proof. by destruct o; intros st j. Qed.

Lemma wsi_with_heap f : writes_side_inputs_only (modify (with_heap f)).
Proof. by intros st j. Qed.

Lemma wsi_insert k id :
  writes_side_inputs_only (modify (with_inputs (insert ("side." +:+ k) id))).
Proof. intros st j Hj. simpl. apply lookup_insert_ne. intros E. by apply (Hj k). Qed.

Lemma wsi_bind {X Y} (m : M X) (f : X → M Y) :
  writes_side_inputs_only m → (∀ x, writes_side_inputs_only (f x)) →
  writes_side_inputs_only (m ≫= f).
Proof.
  intros Hm Hf st j Hj. unfold mbind, M_bind. specialize (Hm st j Hj).
  destruct (m st) as [st' [x|e']]; simpl in *; [|done].
  by rewrite (Hf x st' j Hj).
Qed.

Lemma wsi_for_of {X Y} (l : list X) (body : X → Y → M Y) :
  (∀ x acc, writes_side_inputs_only (body x acc)) →
  ∀ acc, writes_side_inputs_only (for_of l acc body).
Proof.
  intros Hb. induction l as [|x l IH]; intros acc; simpl.
  - apply wsi_ret.
  - apply wsi_bind; [apply Hb | apply IH].
Qed.

Ltac wsi_step :=
  first [ apply wsi_ret | apply wsi_gets | apply wsi_lift | apply wsi_defined
        | apply wsi_with_heap | apply wsi_insert
        | apply wsi_bind; [| intros ?] ].

Lemma wsi_side_input_entry input cc k v sis :
  writes_side_inputs_only (side_input_entry G I A input cc k v sis).
Proof.
  unfold side_input_entry. repeat wsi_step.
  match goal with x : _ * _ |- _ => destruct x end.
  repeat wsi_step.
Qed.

Lemma wsi_context_entry input cc e sis :
  writes_side_inputs_only (context_entry G I A input cc e sis).
Proof.
  unfold context_entry. destruct e as [k v]. wsi_step; [wsi_step|].
  destruct (instanceof _ _ _); [apply wsi_side_input_entry|].
  repeat wsi_step.
Qed.

Lemma wsi_expandContext context input :
  writes_side_inputs_only (expandContext G I A context input).
Proof.
  unfold expandContext. wsi_step; [wsi_step|].
  destruct (String.eqb _ _); [|wsi_step].
  wsi_step; [wsi_step|]. destruct x0.
  repeat wsi_step.
  apply wsi_for_of. intros. apply wsi_context_entry.
Qed.

(** X3. Whatever the context, the input and the state, and whether the
    expansion returns or throws: an input of the descriptor whose name is
    not of the form ["side." + k] is neither added, removed nor changed.
    The main input's registration is safe from any context key. *)
Theorem expansion_writes_side_inputs_only doFn context input st j :
  (∀ k, j ≠ "side." +:+ k) →
  runnerApi.inputs
    (transformProto (expandInternal G I A L toBinary doFn context input st).1)
  !! j
  = runnerApi.inputs (transformProto st) !! j.
Proof.
  intros Hj. unfold expandInternal, mbind, M_bind.
  pose proof (wsi_expandContext context input st j Hj) as Hw.
  by destruct (expandContext G I A context input st) as [st1 [[cc sis]|e']].
Qed.


(** *** Any number of side inputs *)

Lemma resolved_side_input_Some comps h mws (p : nat) sid si :
  resolved_side_input G I A comps h mws (VRef p) = Some (sid, si) →
  ∃ spc ws wfn pat,
    getId h (get h p "pcoll") = Ok sid
    ∧ runnerApi.pcollections comps !! sid = Some spc
    ∧ runnerApi.windowingStrategies comps
        !! runnerApi.windowingStrategyId spc = Some ws
    ∧ runnerApi.windowFn ws = Some wfn
    ∧ get_prop h (get h p "accessor") "accessPattern" = Ok pat
    ∧ si = runnerApi.mkSideInput
             (runnerApi.mkAccessPattern pat [])
             (runnerApi.mkFunctionSpec "unused" [])
             (runnerApi.mkWindowMappingFn
                (windowMappingFn_urn G I A
                   (String.eqb (runnerApi.urn wfn)
                      "beam:window_fn:global_windows:v1")
                   mws (runnerApi.windowingStrategyId spc))
                []).
Proof.
  unfold resolved_side_input. simpl.
  destruct (getId h (get h p "pcoll")) as [sid'|] eqn:E1; [|done].
  destruct (runnerApi.pcollections comps !! sid') as [spc|] eqn:E2; [|done].
  simpl.
  destruct (runnerApi.windowingStrategies comps !! _) as [ws|] eqn:E3; [|done].
  simpl.
  destruct (runnerApi.windowFn ws) as [wfn|] eqn:E4; [|done]. simpl.
  destruct (get_prop h (get h p "accessor") "accessPattern") as [pat|] eqn:E5;
    [|done].
  intros [= <- <-]. by eexists spc, ws, wfn, pat.
Qed.

Lemma instanceof_true_ref h v q :
  instanceof h v q = true → ∃ p : nat, v = VRef p.
Proof. destruct v; try done. by eexists. Qed.

(** The loop, run on entries that are literals or resolving side inputs,
    is the iteration of [loop_step]. *)
Lemma for_of_resolving input h0 pr sl mid mpc Ls : ∀ s st,
  st_heap st = h0 ++ Object pr (ls_props s) sl :: ls_copies s →
  runnerApi.inputs (transformProto st) = ls_inputs s →
  heap_wf h0 → allocated (length h0) input →
  getId h0 input = Ok mid →
  runnerApi.pcollections (components (pipeline st)) !! mid = Some mpc →
  Forall (λ e, allocated (length h0) e.2
               ∧ (instanceof h0 e.2 SideInputParam_prototype = true →
                  is_Some (resolved_side_input G I A (components (pipeline st))
                             h0 (runnerApi.windowingStrategyId mpc) e.2))) Ls →
  let s' := fold_left (loop_step G I A (components (pipeline st)) h0
                         (runnerApi.windowingStrategyId mpc)) Ls s in
  for_of Ls (ls_sideInputs s) (context_entry G I A input (length h0)) st
  = (mkState (h0 ++ Object pr (ls_props s') sl :: ls_copies s') (pipeline st)
       (runnerApi.mkPTransform (ls_inputs s')
          (runnerApi.outputs (transformProto st))
          (runnerApi.spec (transformProto st))),
     Ok (ls_sideInputs s')).
Proof.
  induction Ls as [|[k v] Ls IH]; intros s st Hst Hins Hwf Hin Hmid Hmpc HL;
    cbn [for_of fold_left].
  - unfold mret, M_ret. rewrite <- Hst, <- Hins. by destruct st as [? ? []].
  - apply Forall_cons in HL as [[Hv Hres] HL]. unfold mbind, M_bind.
    destruct (instanceof h0 v SideInputParam_prototype) eqn:Hi.
    + destruct (instanceof_true_ref _ _ _ Hi) as [p ->]. simpl in Hv.
      simpl in Hres. destruct (Hres Hi) as [[sid si] Hr].
      destruct (resolved_side_input_Some _ _ _ _ _ _ Hr)
        as (spc & ws & wfn & pat & H1 & H2 & H3 & H4 & H5 & Hsi).
      erewrite context_entry_side_input; [| done | done | done | done].
      erewrite side_input_entry_ok; [| done | done | done | done | done | done
                                      | done | done | done | done | done ].
      rewrite <- Hsi.
      assert (Hlen : length (st_heap st)
                     = S (length h0) + length (ls_copies s)).
      { rewrite Hst, length_app. simpl. lia. }
      rewrite Hlen, Hins.
      assert (Hs1 : loop_step G I A (components (pipeline st)) h0
                      (runnerApi.windowingStrategyId mpc) s (k, VRef p)
                    = mkLoopState
                        (own_set k (VRef (S (length h0) + length (ls_copies s)))
                           (ls_props s))
                        (ls_copies s ++ [tagged p ("side." +:+ k)])
                        (<["side." +:+ k := si]> (ls_sideInputs s))
                        (<["side." +:+ k := sid]> (ls_inputs s))).
      { unfold loop_step. cbn [fst snd]. by rewrite Hi, Hr. }
      rewrite Hs1.
      by apply (IH (mkLoopState _ _ _ _)
                  (mkState _ (pipeline st) (runnerApi.mkPTransform _ _ _))).
    + erewrite context_entry_literal by done.
      assert (Hs1 : loop_step G I A (components (pipeline st)) h0
                      (runnerApi.windowingStrategyId mpc) s (k, v)
                    = mkLoopState (own_set k v (ls_props s)) (ls_copies s)
                        (ls_sideInputs s) (ls_inputs s)).
      { unfold loop_step. cbn [fst snd]. by rewrite Hi. }
      rewrite Hs1. unfold with_heap.
      by apply (IH (mkLoopState _ _ _ _) (mkState _ (pipeline st) _)).
Qed.


Lemma tag_inj k k' : "side." +:+ k = "side." +:+ k' → k = k'.
Proof. cbv [String.append]. by intros [= ->]. Qed.

Lemma own_lookup_snoc_ne k k' v ps :
  k ≠ k' → own_lookup k (ps ++ [(k', v)]) = own_lookup k ps.
Proof.
  intros Hne. rewrite own_lookup_app. destruct (own_lookup k ps); [done|].
  simpl. by rewrite (proj2 (String.eqb_neq k' k)).
Qed.

Lemma own_lookup_snoc_eq k v ps :
  own_lookup k ps = None → own_lookup k (ps ++ [(k, v)]) = Some v.
Proof.
  intros Hk. rewrite own_lookup_app, Hk. simpl. by rewrite String.eqb_refl.
Qed.

(** What the iteration of [loop_step] has built after the entries [Ls]. *)
Lemma loop_step_fold comps h0 mws ins0 Ls :
  NoDup Ls.*1 →
  Forall (λ e, instanceof h0 e.2 SideInputParam_prototype = true →
               is_Some (resolved_side_input G I A comps h0 mws e.2)) Ls →
  let s' := fold_left (loop_step G I A comps h0 mws) Ls
              (mkLoopState [] [] ∅ ins0) in
  (ls_props s').*1 = Ls.*1
  ∧ (∀ k v, (k, v) ∈ Ls →
       instanceof h0 v SideInputParam_prototype = false →
       own_lookup k (ls_props s') = Some v)
  ∧ (∀ k v, (k, v) ∈ Ls →
       instanceof h0 v SideInputParam_prototype = true →
       ∃ (p : nat) sid si (i : nat),
         v = VRef p
         ∧ resolved_side_input G I A comps h0 mws v = Some (sid, si)
         ∧ ls_sideInputs s' !! ("side." +:+ k) = Some si
         ∧ ls_inputs s' !! ("side." +:+ k) = Some sid
         ∧ own_lookup k (ls_props s') = Some (VRef (S (length h0) + i))
         ∧ ls_copies s' !! i = Some (tagged p ("side." +:+ k)))
  ∧ (∀ t, is_Some (ls_sideInputs s' !! t) →
       ∃ k v, (k, v) ∈ Ls
              ∧ instanceof h0 v SideInputParam_prototype = true
              ∧ t = "side." +:+ k)
  ∧ (∀ j, (∀ k v, (k, v) ∈ Ls →
             instanceof h0 v SideInputParam_prototype = true →
             j ≠ "side." +:+ k) →
       ls_inputs s' !! j = ins0 !! j).
Proof.
  induction Ls as [|[k v] Ls IH] using rev_ind; intros Hnd Hres.
  - simpl. split; [done|]. split; [by intros ?? ?%elem_of_nil|].
    split; [by intros ?? ?%elem_of_nil|].
    split; [|done]. intros t. rewrite lookup_empty. by intros [? ?].
  - rewrite fmap_app in Hnd. apply NoDup_app in Hnd as (Hnd & Hfresh & _).
    apply Forall_app in Hres as [Hres Hkv].
    apply Forall_cons in Hkv as [Hkv _]. simpl in Hkv.
    specialize (IH Hnd Hres). rewrite fold_left_app. cbn [fold_left].
    set (s := fold_left (loop_step G I A comps h0 mws) Ls
                (mkLoopState [] [] ∅ ins0)) in *.
    cbv zeta in IH. destruct IH as (Ikeys & Ilit & Iside & Idom & Iins).
    assert (Hk : own_lookup k (ls_props s) = None).
    { apply own_lookup_None. rewrite Ikeys. intros Hin.
      apply (Hfresh _ Hin). left. }
    assert (Hold : ∀ k0 v0, (k0, v0) ∈ Ls → k0 ≠ k).
    { intros k0 v0 Hin ->. apply (Hfresh k); [|left].
      change k with (k, v0).1. by apply list_elem_of_fmap_2. }
    cbv zeta.
    destruct (instanceof h0 v SideInputParam_prototype) eqn:Hi.
    + destruct (instanceof_true_ref _ _ _ Hi) as [p ->].
      destruct (Hkv eq_refl) as [[sid si] Hr].
      assert (Hs1 : loop_step G I A comps h0 mws s (k, VRef p)
                    = mkLoopState
                        (own_set k (VRef (S (length h0) + length (ls_copies s)))
                           (ls_props s))
                        (ls_copies s ++ [tagged p ("side." +:+ k)])
                        (<["side." +:+ k := si]> (ls_sideInputs s))
                        (<["side." +:+ k := sid]> (ls_inputs s))).
      { unfold loop_step. cbn [fst snd]. by rewrite Hi, Hr. }
      rewrite Hs1. cbn [ls_props ls_copies ls_sideInputs ls_inputs].
      rewrite own_set_fresh by done.
      split; [by rewrite !fmap_app, Ikeys|].
      split.
      { intros k0 v0 [Hin|Hin]%elem_of_app Hlit.
        - rewrite own_lookup_snoc_ne by (by eapply Hold). by apply Ilit.
        - apply list_elem_of_singleton in Hin as [= -> ->]. congruence. }
      split.
      { intros k0 v0 [Hin|Hin]%elem_of_app Hsd.
        - destruct (Iside k0 v0 Hin Hsd)
            as (p0 & sid0 & si0 & i & -> & E1 & E2 & E3 & E4 & E5).
          pose proof (Hold _ _ Hin) as Hne.
          exists p0, sid0, si0, i. split; [done|]. split; [done|].
          assert ("side." +:+ k ≠ "side." +:+ k0)
            by (intros E; by apply tag_inj in E).
          rewrite !lookup_insert_ne by done.
          split; [done|]. split; [done|].
          split; [by rewrite own_lookup_snoc_ne|].
          by apply lookup_app_l_Some.
        - apply list_elem_of_singleton in Hin as [= -> ->].
          exists p, sid, si, (length (ls_copies s)).
          split; [done|]. split; [done|].
          rewrite !lookup_insert_eq. split; [done|]. split; [done|].
          split; [by apply own_lookup_snoc_eq|].
          by apply list_lookup_middle. }
      split.
      { intros t. destruct (decide (t = "side." +:+ k)) as [->|Hne].
        - intros _. exists k, (VRef p). split; [|done].
          apply elem_of_app. right. by apply list_elem_of_singleton.
        - rewrite lookup_insert_ne by done. intros Ht.
          destruct (Idom t Ht) as (k0 & v0 & Hin & ? & ?).
          exists k0, v0. split; [|done]. apply elem_of_app. by left. }
      { intros j Hj. rewrite lookup_insert_ne.
        - apply Iins. intros k0 v0 Hin. apply Hj, elem_of_app. by left.
        - intros E. symmetry in E. revert E. apply (Hj k (VRef p)); [|done].
          apply elem_of_app. right. by apply list_elem_of_singleton. }
    + assert (Hs1 : loop_step G I A comps h0 mws s (k, v)
                    = mkLoopState (own_set k v (ls_props s)) (ls_copies s)
                        (ls_sideInputs s) (ls_inputs s)).
      { unfold loop_step. cbn [fst snd]. by rewrite Hi. }
      rewrite Hs1. cbn [ls_props ls_copies ls_sideInputs ls_inputs].
      rewrite own_set_fresh by done.
      split; [by rewrite !fmap_app, Ikeys|].
      split.
      { intros k0 v0 [Hin|Hin]%elem_of_app Hlit.
        - rewrite own_lookup_snoc_ne by (by eapply Hold). by apply Ilit.
        - apply list_elem_of_singleton in Hin as [= -> ->].
          by apply own_lookup_snoc_eq. }
      split.
      { intros k0 v0 [Hin|Hin]%elem_of_app Hsd.
        - destruct (Iside k0 v0 Hin Hsd)
            as (p0 & sid0 & si0 & i & -> & E1 & E2 & E3 & E4 & E5).
          exists p0, sid0, si0, i. repeat (split; [done|]).
          split; [|done]. rewrite own_lookup_snoc_ne; [done|].
          by eapply Hold.
        - apply list_elem_of_singleton in Hin as [= -> ->]. congruence. }
      split.
      { intros t Ht. destruct (Idom t Ht) as (k0 & v0 & Hin & ? & ?).
        exists k0, v0. split; [|done]. apply elem_of_app. by left. }
      { intros j Hj. apply Iins. intros k0 v0 Hin. apply Hj, elem_of_app.
        by left. }
Qed.


#[local] Arguments typeof : simpl never.
#[local] Arguments instanceof : simpl never.
#[local] Arguments getId : simpl never.
#[local] Arguments get_prop : simpl never.

(** On a heap without attributes.  A context object with any number of
    side inputs, each of which resolves (its [pcoll] is a dataset known to
    the registry with its
    windowing strategy and window function, its accessor can be read), and
    a main input known to the registry: the extraction succeeds; every
    literal entry reads unchanged through the context copy; every
    side-input entry under [k] has its specification under ["side." + k]
    in the side-input mapping, its dataset id under ["side." + k] in the
    descriptor's inputs, and in the context copy a newly allocated tagged
    copy of the parameter; the side-input mapping has no other key; and
    the descriptor's inputs change at those names only. *)
Lemma expandContext_many_side_inputs input (c : nat) o st mid mpc :
  heap_wf (st_heap st) → st_heap st !! c = Some o →
  typeof (st_heap st) (VRef c) = "object" →
  allocated (length (st_heap st)) input →
  getId (st_heap st) input = Ok mid →
  runnerApi.pcollections (components (pipeline st)) !! mid = Some mpc →
  Forall (λ e, instanceof (st_heap st) e.2 SideInputParam_prototype = true →
               is_Some (resolved_side_input G I A (components (pipeline st))
                          (st_heap st) (runnerApi.windowingStrategyId mpc) e.2))
         (props o) →
  ∃ st' (contextCopy : nat) sideInputs,
    expandContext G I A (VRef c) input st
      = (st', Ok (VRef contextCopy, sideInputs))
    ∧ (∀ k v, (k, v) ∈ props o →
         instanceof (st_heap st) v SideInputParam_prototype = false →
         get (st_heap st') contextCopy k = v)
    ∧ (∀ k v, (k, v) ∈ props o →
         instanceof (st_heap st) v SideInputParam_prototype = true →
         ∃ (p : nat) sid si (copy : nat),
           v = VRef p
           ∧ resolved_side_input G I A (components (pipeline st)) (st_heap st)
               (runnerApi.windowingStrategyId mpc) v = Some (sid, si)
           ∧ sideInputs !! ("side." +:+ k) = Some si
           ∧ runnerApi.inputs (transformProto st') !! ("side." +:+ k) = Some sid
           ∧ get (st_heap st') contextCopy k = VRef copy
           ∧ length (st_heap st) < copy
           ∧ st_heap st' !! copy = Some (tagged p ("side." +:+ k)))
    ∧ (∀ t, is_Some (sideInputs !! t) →
         ∃ k v, (k, v) ∈ props o
                ∧ instanceof (st_heap st) v SideInputParam_prototype = true
                ∧ t = "side." +:+ k)
    ∧ (∀ j, (∀ k v, (k, v) ∈ props o →
               instanceof (st_heap st) v SideInputParam_prototype = true →
               j ≠ "side." +:+ k) →
         runnerApi.inputs (transformProto st') !! j
         = runnerApi.inputs (transformProto st) !! j).
Proof.
  intros Hwf Hc Hty Hin Hmid Hmpc Hres.
  pose proof (own_entries_Permutation (props o)) as Hperm.
  assert (Hmem : ∀ e, e ∈ own_entries (props o) ↔ e ∈ props o)
    by (intros e; by rewrite Hperm).
  pose proof (own_entries_nodup _ (heap_wf_nodup _ _ _ Hwf Hc)) as Hnd.
  assert (Hres' : Forall (λ e,
            instanceof (st_heap st) e.2 SideInputParam_prototype = true →
            is_Some (resolved_side_input G I A (components (pipeline st))
                       (st_heap st) (runnerApi.windowingStrategyId mpc) e.2))
            (own_entries (props o))) by (by rewrite Hperm).
  destruct (loop_step_fold (components (pipeline st)) (st_heap st)
              (runnerApi.windowingStrategyId mpc)
              (runnerApi.inputs (transformProto st))
              (own_entries (props o)) Hnd Hres')
    as (_ & Ilit & Iside & Idom & Iins).
  unfold expandContext.
  unfold mbind, M_bind, mret, M_ret, gets, modify, lift. simpl.
  rewrite typeof_object_eqb by done. simpl.
  unfold entries. rewrite lookup_app_l, Hc by (by eapply lookup_lt_Some).
  assert (HF : Forall (λ e,
            allocated (length (st_heap st)) e.2
            ∧ (instanceof (st_heap st) e.2 SideInputParam_prototype = true →
               is_Some (resolved_side_input G I A (components (pipeline st))
                          (st_heap st) (runnerApi.windowingStrategyId mpc) e.2)))
            (own_entries (props o))).
  { apply Forall_and. split; [by eapply entries_allocated | done]. }
  pose proof (for_of_resolving input (st_heap st) (Some c) IOrdinary mid mpc
             (own_entries (props o))
             (mkLoopState [] [] ∅ (runnerApi.inputs (transformProto st)))
             (with_heap (λ _, st_heap st ++ [Object (Some c) [] IOrdinary]) st)
             eq_refl eq_refl Hwf Hin Hmid Hmpc HF) as Hloop.
  cbv zeta in Hloop. simpl in Hloop. rewrite Hloop. clear Hloop.
  cbn [pipeline with_heap transformProto].
  set (s' := fold_left _ _ _) in *.
  eexists _, (length (st_heap st)), _. split; [done|].
  cbn [st_heap transformProto runnerApi.inputs].
  split; [|split; [|split]].
  - intros k v Hkv Hlit. eapply get_own; [by apply list_lookup_middle|].
    apply Ilit; [by apply Hmem | done].
  - intros k v Hkv Hsd.
    destruct (Iside k v (proj2 (Hmem _) Hkv) Hsd)
      as (p & sid & si & i & -> & E1 & E2 & E3 & E4 & E5).
    exists p, sid, si, (S (length (st_heap st)) + i).
    split; [done|]. split; [done|]. split; [done|]. split; [done|].
    split; [by eapply get_own; [by apply list_lookup_middle|]|].
    split; [lia|].
    rewrite lookup_app_r by lia.
    by replace (S (length (st_heap st)) + i - length (st_heap st))
      with (S i) by lia.
  - intros t Ht. destruct (Idom t Ht) as (k & v & Hkv & ? & ?).
    exists k, v. split; [by apply Hmem | done].
  - intros j Hj. apply Iins. intros k v Hkv. apply Hj. by apply Hmem.
Qed.


(** *** A side input without a dataset *)




(** *** A failure after earlier side inputs *)


(** *** A context that is not an object *)

(** X11. A context whose [typeof] is not ["object"] (undefined, a
    boolean, a number, a string, a function): the expansion always
    succeeds, without consulting the registry or the input; it leaves the
    descriptor's inputs and outputs alone, sets the spec with an empty
    side-input mapping, and the heap gains the output handle only. *)
Theorem non_object_context_expansion doFn context input st :
  typeof (st_heap st) context ≠ "object" →
  expandInternal G I A L toBinary doFn context input st
  = (mkState
       (st_heap st ++
          [Object (Some Object_prototype) []
             (IPCollection
                (NilZero.string_of_uint (Nat.to_uint (counter (pipeline st))))
                (self (pipeline st)) GeneralObjectCoder)])
       (mkPipeline (self (pipeline st)) (components (pipeline st))
          (S (counter (pipeline st))))
       (runnerApi.mkPTransform
          (runnerApi.inputs (transformProto st))
          (runnerApi.outputs (transformProto st))
          (Some (runnerApi.mkFunctionSpec "beam:transform:pardo:v1"
                   (toBinary
                      (runnerApi.mkParDoPayload
                         (runnerApi.mkFunctionSpec L
                            (TextEncoder_encode (exportName doFn)))
                         ∅))))),
     Ok (VRef (length (st_heap st)))).
Proof.
  intros Hty. unfold expandInternal, mbind, M_bind.
  by rewrite expandContext_not_object.
Qed.

End WholeExpansion.

(** * The export name *)

Section ExportName.
Import JS JSFacts.

Variables (G I A L : string) (toBinary : runnerApi.ParDoPayload → list byte).

(** The expansion under another export name: the same outcome, and on
    success the same state but for the bytes of the name in the spec. *)
Lemma expandInternal_with_exportName doFn n context input st :
  match expandInternal G I A L toBinary doFn context input st with
  | (st2, Ok out) =>
      ∃ st2' sideInputs,
        expandInternal G I A L toBinary (with_exportName n doFn) context input st
        = (st2', Ok out)
        ∧ runnerApi.spec (transformProto st2)
          = Some (runnerApi.mkFunctionSpec "beam:transform:pardo:v1"
                    (toBinary
                       (runnerApi.mkParDoPayload
                          (runnerApi.mkFunctionSpec L
                             (TextEncoder_encode (exportName doFn)))
                          sideInputs)))
        ∧ runnerApi.spec (transformProto st2')
          = Some (runnerApi.mkFunctionSpec "beam:transform:pardo:v1"
                    (toBinary
                       (runnerApi.mkParDoPayload
                          (runnerApi.mkFunctionSpec L (TextEncoder_encode n))
                          sideInputs)))
        ∧ st_heap st2' = st_heap st2
        ∧ pipeline st2' = pipeline st2
        ∧ runnerApi.inputs (transformProto st2')
          = runnerApi.inputs (transformProto st2)
        ∧ runnerApi.outputs (transformProto st2')
          = runnerApi.outputs (transformProto st2)
  | (st2, Throw e) =>
      e = TypeError
      ∧ expandInternal G I A L toBinary (with_exportName n doFn) context input st
        = (st2, Throw e)
  end.
Proof.
  unfold expandInternal, mbind, M_bind.
  pose proof (te_expandContext G I A context input st) as Hte.
  destruct (expandContext G I A context input st) as [st1 [[cc sis]|e]];
    simpl in *.
  - unfold modify, createPCollectionInternal, alloc. simpl.
    by eexists _, sis.
  - split; [by apply Hte | done].
Qed.

(** C9, as the code has it.  The builder never looks at [exportName].
    Whatever the DoFn (named or not, with a default context or without),
    the context, the input and the state: exporting the DoFn under any
    other name [n], the empty string included, [localParDo] builds over the
    same heap, the expansion has the same outcome (when it throws, it is
    the [TypeError] of the context extraction, in the same state), and on
    success the two states differ in the DoFn payload of the spec only,
    which holds the UTF-8 bytes of the name: the very bytes of [n] when it
    has no lone surrogate, none for the empty name. *)
Theorem exportName_is_not_checked doFn n context h input st :
  ∃ h' t t',
    localParDo G I A L toBinary doFn context h = (h', t)
    ∧ localParDo G I A L toBinary (with_exportName n doFn) context h = (h', t')
    ∧ match expand t input st with
      | (st2, Ok out) =>
          ∃ st2' sideInputs,
            expand t' input st = (st2', Ok out)
            ∧ runnerApi.spec (transformProto st2)
              = Some (runnerApi.mkFunctionSpec "beam:transform:pardo:v1"
                        (toBinary
                           (runnerApi.mkParDoPayload
                              (runnerApi.mkFunctionSpec L
                                 (TextEncoder_encode (exportName doFn)))
                              sideInputs)))
            ∧ runnerApi.spec (transformProto st2')
              = Some (runnerApi.mkFunctionSpec "beam:transform:pardo:v1"
                        (toBinary
                           (runnerApi.mkParDoPayload
                              (runnerApi.mkFunctionSpec L (TextEncoder_encode n))
                              sideInputs)))
            ∧ st_heap st2' = st_heap st2
            ∧ pipeline st2' = pipeline st2
            ∧ runnerApi.inputs (transformProto st2')
              = runnerApi.inputs (transformProto st2)
            ∧ runnerApi.outputs (transformProto st2')
              = runnerApi.outputs (transformProto st2)
      | (st2, Throw e) => e = TypeError ∧ expand t' input st = (st2, Throw e)
      end
    ∧ (well_formed n = true → TextEncoder_encode n = list_byte_of_string n)
    ∧ TextEncoder_encode "" = [].
Proof.
  unfold localParDo.
  change (extractContext (with_exportName n doFn)) with (extractContext doFn).
  destruct (truthy (extractContext doFn)).
  - destruct (object_spread h (extractContext doFn) context) as [h1 o].
    eexists _, _, _. split; [done|]. split; [done|].
    split; [apply expandInternal_with_exportName|].
    split; [apply TextEncoder_encode_well_formed | done].
  - eexists _, _, _. split; [done|]. split; [done|].
    split; [apply expandInternal_with_exportName|].
    split; [apply TextEncoder_encode_well_formed | done].
Qed.

End ExportName.

(** * Further properties of the parameters *)

Section Parameters.
Import JS JSFacts.

#[local] Arguments get : simpl never.
#[local] Arguments set_prop : simpl never.
#[local] Arguments delete_prop : simpl never.
#[local] Arguments String.eqb : simpl never.


Section Runtime.

Variable W : Type.
Variable provider_at : nat → option (ParamProvider W).

Lemma lookup_unbound h (this : nat) w :
  get h this "provider" = VUndefined →
  lookup W provider_at h this w
  = (w, Throw (Error "Cannot be called outside of a DoFn's process method.")).
Proof. intros H. unfold lookup. by rewrite H. Qed.



(** X8. A parameter made by [new SideInputParam(pcoll, accessor)], in any
    heap that holds the classes of the file: it is a new object that is a
    [SideInputParam], a [ParDoLookupParam] and a [ParDoParam] but not a
    [ParDoUpdateParam]; it reads back [pcoll] and [accessor] as given and
    ["sideInput"] as its [parDoParamName]; its [sideInputId] and its
    [provider] are unset, so that [lookup] on it throws the usage error; and
    no older object has changed. *)
Theorem declared_side_input_param h pcoll accessor w :
  module_heap `prefix_of` h →
  ∃ h' (this : nat),
    new_SideInputParam h pcoll accessor = (h', this)
    ∧ h `prefix_of` h'
    ∧ h !! this = None
    ∧ instanceof h' (VRef this) SideInputParam_prototype = true
    ∧ instanceof h' (VRef this) ParDoLookupParam_prototype = true
    ∧ instanceof h' (VRef this) ParDoParam_prototype = true
    ∧ instanceof h' (VRef this) ParDoUpdateParam_prototype = false
    ∧ get h' this "pcoll" = pcoll
    ∧ get h' this "accessor" = accessor
    ∧ get h' this "parDoParamName" = VString "sideInput"
    ∧ get h' this "sideInputId" = VUndefined
    ∧ get h' this "provider" = VUndefined
    ∧ lookup W provider_at h' this w
      = (w, Throw (Error "Cannot be called outside of a DoFn's process method.")).
Proof.
  intros [r ->].
  assert (Hmw : heap_wf module_heap)
    by (apply heap_wfb_spec; vm_compute; reflexivity).
  pose proof (heap_wf_protos _ Hmw) as Hmp.
  unfold new_SideInputParam, new_ParDoParam, alloc.
  rewrite !set_prop_middle. cbn [proto props slot own_set].
  set (ps := [("parDoParamName", VString "sideInput"); ("pcoll", pcoll);
              ("accessor", accessor)]).
  set (h := module_heap ++ r).
  assert (Hlen : 5 ≤ length h) by (unfold h; rewrite length_app; simpl; lia).
  assert (Hchain : ∀ q, instanceof (h ++ [Object (Some SideInputParam_prototype)
                                            ps IOrdinary]) (VRef (length h)) q
                        = (4 =? q) || chain_has 4 module_heap 4 q).
  { intros q. unfold instanceof.
    remember (chain_has 4 module_heap 4 q) as rhs eqn:Hrhs.
    destruct (length h) as [|n] eqn:Hn; [lia|].
    cbn [chain_has]. rewrite <- Hn, list_lookup_middle by done.
    cbn [proto]. unfold SideInputParam_prototype. f_equal.
    subst rhs. unfold h. rewrite <- app_assoc.
    apply (chain_has_stable module_heap _ q n 4 4 Hmw); simpl; lia. }
  assert (Hget : ∀ k, get (h ++ [Object (Some SideInputParam_prototype)
                                   ps IOrdinary]) (length h) k
                      = match own_lookup k ps with
                        | Some v => v | None => VUndefined end).
  { intros k. unfold get at 1.
    destruct (length h) as [|n] eqn:Hn; [lia|].
    cbn [get_from]. rewrite <- Hn, list_lookup_middle by done.
    cbn [proto props]. destruct (own_lookup k ps); [done|].
    unfold h. rewrite <- app_assoc.
    rewrite (get_from_stable_protos module_heap _ k n 4 4 Hmp);
      [done | simpl; lia | lia | lia]. }
  eexists _, (length h). split; [done|].
  split; [by apply prefix_app_r|]. split; [by apply lookup_ge_None|].
  rewrite !Hchain, !Hget. repeat split; try done.
  apply lookup_unbound. by rewrite Hget.
Qed.

End Runtime.
End Parameters.

(** * The default context *)

Section DefaultContext.
Import JS JSFacts.

Variables (G I A L : string) (toBinary : runnerApi.ParDoPayload → list byte).

#[local] Arguments set_prop : simpl never.
#[local] Arguments String.eqb : simpl never.

Lemma fold_set_prop_fresh h pr sl ps : ∀ P,
  fold_left (λ h' e, set_prop h' (length h) e.1 e.2) ps
    (h ++ [Object pr P sl])
  = h ++ [Object pr (fold_left (λ a e, own_set e.1 e.2 a) ps P) sl].
Proof.
  induction ps as [|[k v] ps IH]; intros P; simpl; [done|].
  by rewrite set_prop_middle, IH.
Qed.

Lemma object_literal_fresh h ps :
  object_literal h ps
  = (h ++ [Object (Some Object_prototype)
             (fold_left (λ a e, own_set e.1 e.2 a) ps []) IOrdinary],
     length h).
Proof. unfold object_literal, alloc. by rewrite fold_set_prop_fresh. Qed.

(** Assigning entries in turn: the last assignment to a key wins. *)
Lemma own_lookup_fold_own_set k Ls : ∀ P,
  own_lookup k (fold_left (λ a e, own_set e.1 e.2 a) Ls P)
  = match own_lookup k (reverse Ls) with
    | Some v => Some v
    | None => own_lookup k P
    end.
Proof.
  induction Ls as [|[k' v'] Ls IH]; intros P; simpl; [done|].
  rewrite IH, reverse_cons, own_lookup_app, own_lookup_own_set.
  destruct (own_lookup k (reverse Ls)); [done|]. simpl.
  by destruct (String.eqb k' k).
Qed.

Lemma own_lookup_reverse k ps :
  NoDup ps.*1 → own_lookup k (reverse ps) = own_lookup k ps.
Proof.
  intros Hnd. symmetry. apply own_lookup_Permutation; [done|].
  symmetry. apply reverse_Permutation.
Qed.

Lemma index_key_inj (i j : nat) :
  NilZero.string_of_uint (Nat.to_uint i) = NilZero.string_of_uint (Nat.to_uint j) →
  i = j.
Proof.
  intros E.
  assert (Hnn : ∀ n, Nat.to_uint n ≠ Decimal.Nil).
  { intros n. rewrite <- (DecimalNat.Unsigned.of_to n) at 1.
    rewrite DecimalNat.Unsigned.to_of. apply DecimalFacts.unorm_nonnil. }
  apply DecimalNat.Unsigned.to_uint_inj.
  pose proof (NilZero.usu _ (Hnn i)) as Hi.
  pose proof (NilZero.usu _ (Hnn j)) as Hj.
  rewrite E in Hi. congruence.
Qed.

(** The keys an object spread copies from one source are distinct. *)
Lemma spread_source_nodup h v : heap_wf h → NoDup (spread_source h v).*1.
Proof.
  intros Hwf. destruct v; simpl; try apply NoDup_nil_2.
  - apply NoDup_alt. intros i j x.
    rewrite !list_lookup_fmap, !list_lookup_imap.
    destruct (characters s !! i); [|done].
    destruct (characters s !! j); [|done]. simpl.
    intros [= <-] [= E]. symmetry. by apply index_key_inj.
  - unfold entries. destruct (h !! l) as [o|] eqn:Ho; [|apply NoDup_nil_2].
    apply own_entries_nodup. by eapply heap_wf_nodup.
Qed.

(** X9. A DoFn that declares a default context: [localParDo] hands the
    expansion a new object, whatever the caller's context is (undefined
    and null included); under each key the new object holds the caller's
    own property when the caller's context has one, else the default's;
    and neither the default context nor the caller's context is written. *)
Theorem default_context_merge doFn context h :
  heap_wf h → truthy (extractContext doFn) = true →
  ∃ ps t,
    localParDo G I A L toBinary doFn context h
    = (h ++ [Object (Some Object_prototype) ps IOrdinary], t)
    ∧ (∀ input st,
         expand t input st
         = expandInternal G I A L toBinary doFn (VRef (length h)) input st)
    ∧ (∀ k, own_lookup k ps
            = match own_lookup k (spread_source h context) with
              | Some v => Some v
              | None => own_lookup k (spread_source h (extractContext doFn))
              end).
Proof.
  intros Hwf Hd. unfold localParDo, object_spread. rewrite Hd.
  rewrite object_literal_fresh. eexists _, _. split; [done|].
  split; [done|]. intros k.
  rewrite own_lookup_fold_own_set, reverse_app, own_lookup_app. simpl.
  rewrite !own_lookup_reverse by (by apply spread_source_nodup).
  destruct (own_lookup k (spread_source h context)); [done|].
  by destruct (own_lookup k (spread_source h (extractContext doFn))).
Qed.


Lemma object_wf_mono (n m l : nat) o : n ≤ m → object_wf n l o → object_wf m l o.
Proof.
  intros Hnm (H1 & H2 & H3). split; [done|]. split; [|done].
  eapply Forall_impl; [exact H2|]. intros e. by apply allocated_mono.
Qed.

Lemma heap_wf_alloc h o :
  object_wf (S (length h)) (length h) o → heap_wf h → heap_wf (h ++ [o]).
Proof.
  intros Ho Hwf l o' Hl. rewrite length_app, Nat.add_1_r.
  destruct (decide (l < length h)) as [Hlt|Hge].
  - rewrite lookup_app_l in Hl by done.
    eapply object_wf_mono; [|by apply Hwf]. lia.
  - apply lookup_lt_Some in Hl as Hl'. rewrite length_app in Hl'. simpl in Hl'.
    assert (l = length h) as -> by lia.
    rewrite list_lookup_middle in Hl by done. by injection Hl as <-.
Qed.

(** X12. A DoFn whose default context is an object of literals, applied
    with a context that has nothing to spread (undefined or null, say):
    the context handed to the expansion is a new object with the default's
    entries, and the expansion over it succeeds with an empty side-input
    mapping and the descriptor's inputs untouched.  With a default context
    declared, a null context is harmless. *)
Theorem default_context_alone doFn context h (dl : nat) od input st :
  heap_wf h → extractContext doFn = VRef dl → h !! dl = Some od →
  Forall (λ e, instanceof h e.2 SideInputParam_prototype = false) (props od) →
  spread_source h context = [] →
  st_heap st
    = h ++ [Object (Some Object_prototype) (own_entries (props od)) IOrdinary] →
  ∃ t st2 (out : nat),
    localParDo G I A L toBinary doFn context h = (st_heap st, t)
    ∧ expand t input st = (st2, Ok (VRef out))
    ∧ runnerApi.inputs (transformProto st2) = runnerApi.inputs (transformProto st)
    ∧ runnerApi.spec (transformProto st2)
      = Some (runnerApi.mkFunctionSpec "beam:transform:pardo:v1"
                (toBinary
                   (runnerApi.mkParDoPayload
                      (runnerApi.mkFunctionSpec L
                         (TextEncoder_encode (exportName doFn)))
                      ∅))).
Proof.
  intros Hwf Hd Hdl Hlit Hctx Hst.
  pose proof (lookup_lt_Some _ _ _ Hdl) as Hlt.
  pose proof (heap_wf_nodup _ _ _ Hwf Hdl) as Hnd.
  pose proof (entries_allocated _ _ _ Hwf Hdl) as Hal.
  unfold localParDo, object_spread. rewrite Hd. cbn [truthy].
  rewrite object_literal_fresh, Hctx, app_nil_r. cbn [spread_source].
  unfold entries at 1. rewrite Hdl.
  rewrite fold_own_set_fresh by (by apply own_entries_nodup).
  cbn [app]. rewrite <- Hst.
  assert (Hwf' : heap_wf (st_heap st)).
  { rewrite Hst. apply heap_wf_alloc; [|done].
    split; [simpl; unfold Object_prototype; lia|]. split.
    - eapply Forall_impl; [exact Hal|]. intros e. apply allocated_mono. lia.
    - by apply own_entries_nodup. }
  assert (Hc : st_heap st !! length h
               = Some (Object (Some Object_prototype) (own_entries (props od))
                         IOrdinary))
    by (rewrite Hst; by apply list_lookup_middle).
  assert (Hlits : Forall (λ e, instanceof (st_heap st) e.2
                                 SideInputParam_prototype = false)
                    (own_entries (props od))).
  { rewrite own_entries_Permutation.
    apply Forall_forall. intros e He.
    rewrite Hst, instanceof_app.
    - rewrite Forall_forall in Hlit. by apply Hlit.
    - done.
    - destruct (Hwf dl od Hdl) as (_ & Ha & _).
      rewrite Forall_forall in Ha. by apply Ha. }
  eexists _, _, _. split; [done|]. cbn [expand withName].
  unfold expandInternal, mbind, M_bind.
  rewrite (expandContext_literals G I A input (length h) _ st Hwf' Hc);
    [| by unfold typeof; rewrite Hc | exact Hlits].
  unfold modify, createPCollectionInternal, alloc. cbn.
  split; [reflexivity|]. by split.
Qed.

End DefaultContext.

(** * The sample pipeline, checked against the further properties *)

Section MoreSampleChecks.
Import JS JSFacts Sample Sample2.

Lemma both_heap_wf : heap_wf both_context_alloc.1.
Proof. apply heap_wfb_spec. vm_compute. reflexivity. Qed.


Lemma caller_heap_wf : heap_wf caller_alloc.1.
Proof. apply heap_wfb_spec. vm_compute. reflexivity. Qed.

Lemma defaults_heap_wf : heap_wf defaults_alloc.1.
Proof. apply heap_wfb_spec. vm_compute. reflexivity. Qed.

(** The sample expansion against a registry that lacks the side dataset:
    a [TypeError], and no spec. *)
Lemma failed_expansion_builds_nothing_witness :
  ∃ st',
    expandInternal GLOBAL IDENTITY ASSIGN_MAX EXPORT toBinary double
      (VRef context) main (start context_alloc.1 registry_without_side)
    = (st', Throw TypeError)
    ∧ runnerApi.spec (transformProto st') = None
    ∧ pipeline st' = mkPipeline pipeline_loc registry_without_side 0.
Proof.
  destruct (expandInternal GLOBAL IDENTITY ASSIGN_MAX EXPORT toBinary double
              (VRef context) main (start context_alloc.1 registry_without_side))
    as [st' [v|e]] eqn:E; [by vm_compute in E|].
  destruct (failed_expansion_builds_nothing GLOBAL IDENTITY ASSIGN_MAX EXPORT
              toBinary double (VRef context) main
              (start context_alloc.1 registry_without_side) st' e E)
    as (-> & H2 & _ & H4).
  exists st'. split; [done|]. split; [exact H2 | exact H4].
Defined.

(** The main input of the sample descriptor survives the expansion. *)
Lemma expansion_writes_side_inputs_only_witness :
  runnerApi.inputs
    (transformProto
       (expandInternal GLOBAL IDENTITY ASSIGN_MAX EXPORT toBinary double
          (VRef context) main (start context_alloc.1 (registry fixed_windows))).1)
  !! "main" = Some "mainId".
Proof.
  rewrite (expansion_writes_side_inputs_only GLOBAL IDENTITY ASSIGN_MAX EXPORT
             toBinary double (VRef context) main
             (start context_alloc.1 (registry fixed_windows)) "main").
  - reflexivity.
  - intros k. cbv [String.append]. discriminate.
Defined.




(** A parameter declared in the sample heap. *)
Lemma declared_side_input_param_witness :
  ∃ h' (this : nat),
    new_SideInputParam heap0 side VNull = (h', this)
    ∧ instanceof h' (VRef this) SideInputParam_prototype = true
    ∧ instanceof h' (VRef this) ParDoUpdateParam_prototype = false
    ∧ get h' this "pcoll" = side
    ∧ lookup _ provider_at h' this []
      = ([], Throw (Error "Cannot be called outside of a DoFn's process method.")).
Proof.
  destruct (declared_side_input_param _ provider_at heap0 side VNull [])
    as (h' & this & H1 & _ & _ & H4 & _ & _ & H7 & H8 & _ & _ & _ & _ & H13).
  - by eexists.
  - exists h', this. repeat split; assumption.
Defined.

(** The DoFn [scale] with defaults [{ limit: 1, unit: "ms" }], applied
    with the context [{ limit: 3 }], and with a string as context, which
    spreads into its three characters: a two-byte letter and the two
    surrogates of a code point above [U+FFFF]. *)
Lemma default_context_merge_witness :
  (∃ ps t,
     localParDo GLOBAL IDENTITY ASSIGN_MAX EXPORT toBinary scale
       (VRef caller_alloc.2) caller_alloc.1
     = (caller_alloc.1 ++ [Object (Some Object_prototype) ps IOrdinary], t)
     ∧ own_lookup "limit" ps = Some (VNumber 3)
     ∧ own_lookup "unit" ps = Some (VString "ms")
     ∧ own_lookup "other" ps = None)
  ∧ (∃ ps t,
       localParDo GLOBAL IDENTITY ASSIGN_MAX EXPORT toBinary scale
         (VString "é😀") caller_alloc.1
       = (caller_alloc.1 ++ [Object (Some Object_prototype) ps IOrdinary], t)
       ∧ own_lookup "limit" ps = Some (VNumber 1)
       ∧ own_lookup "0" ps = Some (VString "é")
       ∧ own_lookup "1" ps = Some (VString (surrogate 55357))
       ∧ own_lookup "2" ps = Some (VString (surrogate 56832))
       ∧ own_lookup "3" ps = None).
Proof.
  split.
  - destruct (default_context_merge GLOBAL IDENTITY ASSIGN_MAX EXPORT toBinary
                scale (VRef caller_alloc.2) caller_alloc.1)
      as (ps & t & H1 & _ & H3).
    + exact caller_heap_wf.
    + reflexivity.
    + exists ps, t. split; [exact H1|]. rewrite !H3. repeat split; reflexivity.
  - destruct (default_context_merge GLOBAL IDENTITY ASSIGN_MAX EXPORT toBinary
                scale (VString "é😀") caller_alloc.1)
      as (ps & t & H1 & _ & H3).
    + exact caller_heap_wf.
    + reflexivity.
    + exists ps, t. split; [exact H1|]. rewrite !H3. repeat split; reflexivity.
Defined.


(** The sample pipeline with the number [5] as context. *)
Lemma non_object_context_expansion_witness :
  (expandInternal GLOBAL IDENTITY ASSIGN_MAX EXPORT toBinary double
     (VNumber 5) main (start heap0 registry_without_side)).2
  = Ok (VRef 10).
Proof.
  rewrite (non_object_context_expansion GLOBAL IDENTITY ASSIGN_MAX EXPORT
             toBinary double (VNumber 5) main
             (start heap0 registry_without_side)).
  - reflexivity.
  - discriminate.
Defined.

(** The DoFn [scale] applied with a null context. *)
Lemma default_context_alone_witness :
  ∃ t st2 (out : nat),
    localParDo GLOBAL IDENTITY ASSIGN_MAX EXPORT toBinary scale VNull
      defaults_alloc.1
    = (defaults_alloc.1 ++
         [Object (Some Object_prototype)
            [("limit", VNumber 1); ("unit", VString "ms")] IOrdinary], t)
    ∧ expand t main
        (start (defaults_alloc.1 ++
                  [Object (Some Object_prototype)
                     [("limit", VNumber 1); ("unit", VString "ms")] IOrdinary])
           (registry fixed_windows))
      = (st2, Ok (VRef out)).
Proof.
  destruct (default_context_alone GLOBAL IDENTITY ASSIGN_MAX EXPORT toBinary
              scale VNull defaults_alloc.1 defaults_alloc.2
              (Object (Some Object_prototype)
                 [("limit", VNumber 1); ("unit", VString "ms")] IOrdinary)
              main
              (start (defaults_alloc.1 ++
                        [Object (Some Object_prototype)
                           [("limit", VNumber 1); ("unit", VString "ms")]
                           IOrdinary])
                 (registry fixed_windows)))
    as (t & st2 & out & H1 & H2 & _).
  - exact defaults_heap_wf.
  - reflexivity.
  - reflexivity.
  - repeat constructor.
  - reflexivity.
  - reflexivity.
  - exists t, st2, out. split; [exact H1 | exact H2].
Defined.
End MoreSampleChecks.

(** * The embedding with attributes *)

Section StrictFacts.
Import JS JSFacts.

Variables (G I A L : string) (toBinary : runnerApi.ParDoPayload → list byte).
Variable a : Strict.attributes.

#[local] Arguments copySideInputWithId : simpl never.
#[local] Arguments set_prop : simpl never.
#[local] Arguments delete_prop : simpl never.
#[local] Arguments get : simpl never.
#[local] Arguments getId : simpl never.
#[local] Arguments get_prop : simpl never.
#[local] Arguments instanceof : simpl never.
#[local] Arguments typeof : simpl never.
#[local] Arguments windowMappingFn_urn : simpl never.
#[local] Arguments String.append : simpl never.
#[local] Arguments String.eqb : simpl never.

#[local] Arguments Strict.assign : simpl never.
#[local] Arguments Strict.copySideInputWithId : simpl never.
#[local] Arguments Strict.windowingStrategyId_of : simpl never.
#[local] Arguments Strict.windowFn_urn_of : simpl never.
#[local] Arguments Strict.windowMappingFn_urn : simpl never.

Ltac sunfold :=
  unfold mbind, M_bind, mret, M_ret, gets, modify, lift, throw, defined;
  simpl.

(** *** Assignments through a new heir *)

Lemma writable_from_stable h r k (n m l : nat) :
  protos_wf h → l < length h → l ≤ n → l ≤ m →
  Strict.writable_from n a (h ++ r) l k = Strict.writable_from m a h l k.
Proof.
  intros Hwf. revert m l. induction n as [|n IH]; intros m l Hl Hn Hm.
  - assert (l = 0) as -> by lia.
    destruct (lookup_lt_is_Some_2 h 0 Hl) as [o Ho].
    destruct m; simpl; rewrite lookup_app_l, Ho by done;
      destruct (own_lookup k (props o)); try done;
      destruct (proto o) as [p|] eqn:Hp; try done;
      pose proof (Hwf _ _ _ Ho Hp); lia.
  - destruct (lookup_lt_is_Some_2 h l Hl) as [o Ho].
    simpl. rewrite lookup_app_l, Ho by done.
    destruct m as [|m]; simpl; rewrite Ho;
      destruct (own_lookup k (props o)); try done;
      destruct (proto o) as [p|] eqn:Hp; try done;
      pose proof (Hwf _ _ _ Ho Hp); [lia|].
    apply IH; lia.
Qed.

(** An object allocated after the attributes were taken, inheriting from
    [c]: an assignment of [k] stores when [k] is writable along the chain
    of [c]. *)
Lemma assign_new_heir h0 r (c : nat) P sl R k v :
  protos_wf h0 → Strict.attributes_wf a h0 → c < length h0 →
  Strict.writable a h0 c k = true →
  Strict.assign a ((h0 ++ r) ++ Object (Some c) P sl :: R) (length (h0 ++ r)) k v
  = Ok ((h0 ++ r) ++ Object (Some c) (own_set k v P) sl :: R).
Proof.
  intros Hwf [Hro Hne] Hc Hw. unfold Strict.assign.
  rewrite set_prop_middle. cbn [proto props slot].
  pose proof (length_app h0 r) as Hlen.
  assert (Hfresh : bool_decide (length (h0 ++ r) ∉ Strict.nonextensible a) = true).
  { apply bool_decide_eq_true. intros Hin.
    rewrite Forall_forall in Hne. specialize (Hne _ Hin). lia. }
  rewrite Hfresh, orb_true_r, andb_true_r.
  assert (Strict.writable a ((h0 ++ r) ++ Object (Some c) P sl :: R)
            (length (h0 ++ r)) k = true) as ->; [|done].
  unfold Strict.writable. destruct (length (h0 ++ r)) as [|n] eqn:Hn; [lia|].
  cbn [Strict.writable_from]. rewrite <- Hn, list_lookup_middle by done.
  cbn [proto props].
  destruct (own_lookup k P).
  - apply bool_decide_eq_true. intros Hin.
    rewrite Forall_forall in Hro. specialize (Hro _ Hin). simpl in Hro. lia.
  - rewrite <- app_assoc.
    rewrite writable_from_stable with (m := c) by (done || lia). exact Hw.
Qed.

Lemma assign_heir h0 (c : nat) P sl R k v :
  protos_wf h0 → Strict.attributes_wf a h0 → c < length h0 →
  Strict.writable a h0 c k = true →
  Strict.assign a (h0 ++ Object (Some c) P sl :: R) (length h0) k v
  = Ok (h0 ++ Object (Some c) (own_set k v P) sl :: R).
Proof.
  intros. pose proof (assign_new_heir h0 [] c P sl R k v) as H'.
  rewrite app_nil_r in H'. by apply H'.
Qed.

(** An object that refuses [k] makes its heirs refuse it. *)
Lemma assign_heir_refused h0 (c : nat) P sl R k v :
  protos_wf h0 → c < length h0 → own_lookup k P = None →
  Strict.writable a h0 c k = false →
  Strict.assign a (h0 ++ Object (Some c) P sl :: R) (length h0) k v
  = Throw TypeError.
Proof.
  intros Hwf Hc HP Hw. unfold Strict.assign.
  assert (Strict.writable a (h0 ++ Object (Some c) P sl :: R) (length h0) k
          = false) as ->; [|done].
  unfold Strict.writable. destruct (length h0) as [|n] eqn:Hn; [lia|].
  cbn [Strict.writable_from]. rewrite <- Hn, list_lookup_middle by done.
  cbn [proto props]. rewrite HP.
  rewrite writable_from_stable with (m := c) by (done || lia). exact Hw.
Qed.

Lemma strict_copySideInputWithId_ref h0 r (p : nat) id :
  protos_wf h0 → Strict.attributes_wf a h0 → p < length h0 →
  Strict.writable a h0 p "sideInputId" = true →
  Strict.copySideInputWithId a (h0 ++ r) (VRef p) id
  = Ok ((h0 ++ r) ++ [Object (Some p) [("sideInputId", VString id)] IOrdinary],
        VRef (length (h0 ++ r))).
Proof.
  intros Hwf Ha Hp Hw.
  unfold Strict.copySideInputWithId, Object_create, alloc.
  rewrite assign_new_heir by done. cbn [own_set].
  by rewrite delete_prop_middle.
Qed.

(** *** The registry read as plain objects *)

Lemma windowingStrategyId_of_registered m id :
  Strict.registry_get m id ≠ Strict.Member →
  Strict.windowingStrategyId_of m id
  = match m !! id with
    | Some pc => Ok (VString (runnerApi.windowingStrategyId pc))
    | None => Throw TypeError
    end.
Proof.
  unfold Strict.windowingStrategyId_of, Strict.registry_get.
  destruct (m !! id); [done|]. by case_bool_decide.
Qed.

Lemma windowFn_urn_of_string m id :
  Strict.windowFn_urn_of m (VString id)
  = match m !! id ≫= runnerApi.windowFn with
    | Some wfn => Ok (runnerApi.urn wfn)
    | None => Throw TypeError
    end.
Proof.
  unfold Strict.windowFn_urn_of, Strict.registry_get. simpl.
  destruct (m !! id) as [ws|]; simpl; [by destruct (runnerApi.windowFn ws)|].
  by case_bool_decide.
Qed.

Lemma strict_windowMappingFn_urn b x y :
  Strict.windowMappingFn_urn G I A b (VString x) (VString y)
  = windowMappingFn_urn G I A b x y.
Proof.
  unfold Strict.windowMappingFn_urn, windowMappingFn_urn.
  destruct b; [done|].
  destruct (String.eqb_spec x y) as [->|Hne].
  - by rewrite bool_decide_true.
  - rewrite bool_decide_false; [done|]. by intros [= ?].
Qed.

(** *** The two embeddings agree, entry by entry *)

Lemma strict_side_input_entry_agrees input h0 (c : nat) P sl R k (p : nat)
    sis st :
  st_heap st = h0 ++ Object (Some c) P sl :: R →
  heap_wf h0 → Strict.attributes_wf a h0 → c < length h0 → p < length h0 →
  allocated (length h0) input →
  Strict.writable a h0 c k = true →
  Strict.writable a h0 p "sideInputId" = true →
  (∀ mid, getId h0 input = Ok mid →
     Strict.registry_get (runnerApi.pcollections (components (pipeline st))) mid
     ≠ Strict.Member) →
  (∀ sid, getId h0 (get h0 p "pcoll") = Ok sid →
     Strict.registry_get (runnerApi.pcollections (components (pipeline st))) sid
     ≠ Strict.Member) →
  Strict.side_input_entry G I A a input (length h0) k (VRef p) sis st
  = side_input_entry G I A input (length h0) k (VRef p) sis st.
Proof.
  intros Hst Hwf Ha Hc Hp Hin Hwk Hws Hmain Hside.
  pose proof (heap_wf_protos _ Hwf) as Hpr.
  unfold Strict.side_input_entry, side_input_entry. sunfold. rewrite Hst.
  rewrite get_app by done.
  rewrite getId_app by (by apply get_allocated).
  destruct (getId h0 (get h0 p "pcoll")) as [sid|e] eqn:Hsid; sunfold; [|done].
  rewrite strict_copySideInputWithId_ref by done. sunfold.
  rewrite set_prop_middle, delete_prop_middle. simpl.
  rewrite <- app_assoc, <- app_comm_cons.
  rewrite assign_heir by done. sunfold.
  rewrite set_prop_middle. simpl.
  rewrite getId_app by done.
  destruct (getId h0 input) as [mid|e] eqn:Hmid; sunfold; [|done].
  rewrite windowingStrategyId_of_registered by (by apply Hmain).
  destruct (runnerApi.pcollections (components (pipeline st)) !! mid)
    as [mpc|]; sunfold; [|done].
  rewrite lookup_insert_eq. sunfold.
  rewrite windowingStrategyId_of_registered by (by apply Hside).
  destruct (runnerApi.pcollections (components (pipeline st)) !! sid)
    as [spc|]; sunfold; [|done].
  rewrite windowFn_urn_of_string.
  destruct (runnerApi.windowingStrategies (components (pipeline st))
              !! runnerApi.windowingStrategyId spc) as [ws|]; sunfold; [|done].
  destruct (runnerApi.windowFn ws) as [wfn|]; sunfold; [|done].
  rewrite strict_windowMappingFn_urn.
  by destruct (get_prop _ _ "accessPattern").
Qed.

(** A side input that was processed leaves the copy where it was. *)
Lemma side_input_entry_shape input h0 pr P sl R k (p : nat) sis st st' sis' :
  st_heap st = h0 ++ Object pr P sl :: R →
  side_input_entry G I A input (length h0) k (VRef p) sis st = (st', Ok sis') →
  ∃ P' R', st_heap st' = h0 ++ Object pr P' sl :: R'.
Proof.
  intros Hst. unfold side_input_entry. sunfold. rewrite Hst.
  destruct (getId _ (get _ p "pcoll")) as [sid|e]; sunfold; [|done].
  rewrite set_prop_middle, delete_prop_middle. simpl.
  rewrite <- app_assoc, <- app_comm_cons, set_prop_middle. simpl.
  intros E. eexists _, _.
  repeat (case_match; simplify_eq; sunfold; try done).
Qed.

Lemma strict_context_entry_agrees input h0 (c : nat) P sl R e sis st :
  st_heap st = h0 ++ Object (Some c) P sl :: R →
  heap_wf h0 → Strict.attributes_wf a h0 → c < length h0 →
  allocated (length h0) e.2 →
  Strict.unhindered a (components (pipeline st)) h0 input c e →
  Strict.context_entry G I A a input (length h0) e sis st
  = context_entry G I A input (length h0) e sis st.
Proof.
  intros Hst Hwf Ha Hc Hal [Hwk Hside]. destruct e as [k v]. simpl in *.
  pose proof (heap_wf_protos _ Hwf) as Hpr.
  unfold Strict.context_entry, context_entry. sunfold.
  rewrite Hst, instanceof_app by done.
  destruct (instanceof h0 v SideInputParam_prototype) eqn:Hi.
  - destruct (Hside eq_refl) as (p & -> & Hws & Hin & Hm & Hs).
    by apply (strict_side_input_entry_agrees input h0 c P sl R k p sis st).
  - sunfold. rewrite assign_heir by done. sunfold.
    unfold with_heap. by rewrite Hst, set_prop_middle.
Qed.

(** The loop: one turn after the other. *)
Lemma strict_for_of_agrees input h0 (c : nat) sl comps es : ∀ sis st,
  (∃ P R, st_heap st = h0 ++ Object (Some c) P sl :: R) →
  components (pipeline st) = comps →
  heap_wf h0 → Strict.attributes_wf a h0 → c < length h0 →
  Forall (λ e, allocated (length h0) e.2) es →
  Forall (Strict.unhindered a comps h0 input c) es →
  for_of es sis (Strict.context_entry G I A a input (length h0)) st
  = for_of es sis (context_entry G I A input (length h0)) st.
Proof.
  induction es as [|[k v] es IH]; intros sis st (P & R & Hst) Hcomps Hwf Ha Hc
    Hal Hun; [done|].
  apply Forall_cons in Hal as [Hv Hal]. apply Forall_cons in Hun as [He Hun].
  cbn [for_of]. unfold mbind, M_bind.
  rewrite (strict_context_entry_agrees input h0 c P sl R (k, v) sis st)
    by (done || by rewrite Hcomps).
  destruct (context_entry G I A input (length h0) (k, v) sis st)
    as [st' [sis'|e]] eqn:E; [|done].
  apply IH; try done.
  - simpl in Hv. destruct (instanceof h0 v SideInputParam_prototype) eqn:Hi.
    + destruct He as [_ Hside]. destruct (Hside Hi) as (p & Hp & _).
      simpl in Hp. subst v.
      rewrite (context_entry_side_input G I A input h0 _ _ k p sis st Hst)
        in E by done.
      by eapply side_input_entry_shape.
    + rewrite (context_entry_literal G I A input h0 _ P sl R k v sis st Hst)
        in E by done.
      injection E as <- _. by eexists _, _.
  - destruct (frames_context_entry G I A input (length h0) (k, v) sis st)
      as (Hp & _). rewrite E in Hp. simpl in Hp. by rewrite Hp.
Qed.

(** The context extraction of the two embeddings agrees on a context
    whose entries are unhindered. *)
Lemma strict_expandContext_agrees input (c : nat) o st :
  heap_wf (st_heap st) → Strict.attributes_wf a (st_heap st) →
  st_heap st !! c = Some o →
  Forall (Strict.unhindered a (components (pipeline st)) (st_heap st) input c)
         (props o) →
  Strict.expandContext G I A a (VRef c) input st
  = expandContext G I A (VRef c) input st.
Proof.
  intros Hwf Ha Hc Hun.
  pose proof (lookup_lt_Some _ _ _ Hc) as Hlt.
  unfold Strict.expandContext, expandContext. sunfold.
  destruct (String.eqb (typeof (st_heap st) (VRef c)) "object"); [|done].
  sunfold.
  unfold entries. rewrite lookup_app_l, Hc by done.
  rewrite (strict_for_of_agrees input (st_heap st) c IOrdinary
             (components (pipeline st))); try done.
  - by eexists [], [].
  - by eapply entries_allocated.
  - by rewrite own_entries_Permutation.
Qed.



(** Hence the whole expansion: what is proved of the first embedding
    holds of the code with attributes on every unhindered context. *)
Lemma strict_expandInternal_agrees doFn input (c : nat) o st :
  heap_wf (st_heap st) → Strict.attributes_wf a (st_heap st) →
  st_heap st !! c = Some o →
  Forall (Strict.unhindered a (components (pipeline st)) (st_heap st) input c)
         (props o) →
  Strict.expandInternal G I A L toBinary a doFn (VRef c) input st
  = expandInternal G I A L toBinary doFn (VRef c) input st.
Proof.
  intros Hwf Ha Hc Hun. unfold Strict.expandInternal, expandInternal.
  unfold mbind, M_bind.
  by rewrite (strict_expandContext_agrees input c o st).
Qed.

(** A context that is no object reference is handled alike, whatever the
    attributes. *)
Lemma strict_expandInternal_primitive doFn context input st :
  (∀ c : nat, context ≠ VRef c) →
  Strict.expandInternal G I A L toBinary a doFn context input st
  = expandInternal G I A L toBinary doFn context input st.
Proof.
  intros Hc. unfold Strict.expandInternal, expandInternal.
  unfold mbind, M_bind.
  assert (Strict.expandContext G I A a context input st
          = expandContext G I A context input st) as ->; [|done].
  destruct context; try done. by destruct (Hc l).
Qed.

(** A key that cannot be assigned stops the extraction at its turn: the
    entries before it are on the copy, nothing else has happened. *)
Lemma strict_expandContext_refused input (c : nat) o st L1 k v L2 :
  heap_wf (st_heap st) → Strict.attributes_wf a (st_heap st) →
  st_heap st !! c = Some o →
  typeof (st_heap st) (VRef c) = "object" →
  own_entries (props o) = L1 ++ (k, v) :: L2 →
  Forall (λ e, instanceof (st_heap st) e.2 SideInputParam_prototype = false)
         (L1 ++ [(k, v)]) →
  Forall (λ e, Strict.writable a (st_heap st) c e.1 = true) L1 →
  Strict.writable a (st_heap st) c k = false →
  Strict.expandContext G I A a (VRef c) input st
  = (with_heap (λ h, h ++ [Object (Some c) L1 IOrdinary]) st, Throw TypeError).
Proof.
  intros Hwf Ha Hc Hty Hes Hlit Hwk Hk.
  pose proof (lookup_lt_Some _ _ _ Hc) as Hlt.
  pose proof (heap_wf_protos _ Hwf) as Hpr.
  pose proof (entries_allocated _ _ _ Hwf Hc) as Hal.
  pose proof (own_entries_nodup _ (heap_wf_nodup _ _ _ Hwf Hc)) as Hnd.
  rewrite Hes in Hal, Hnd.
  apply Forall_app in Hal as [Hal1 [Hv Hal2]%Forall_cons].
  apply Forall_app in Hlit as [Hlit1 [Hi _]%Forall_cons]. simpl in Hi, Hv.
  rewrite fmap_app in Hnd. apply NoDup_app in Hnd as (Hnd1 & Hfresh & _).
  unfold Strict.expandContext. sunfold.
  rewrite typeof_object_eqb by done. sunfold.
  unfold entries. rewrite lookup_app_l, Hc by done.
  rewrite Hes, for_of_app.
  rewrite (strict_for_of_agrees input (st_heap st) c IOrdinary
             (components (pipeline st))); try done.
  2:{ by eexists [], []. }
  2:{ pose proof (conj Hlit1 Hwk) as HL. apply Forall_and in HL.
      eapply Forall_impl; [exact HL|]. intros e [H1 H2]. split; [done|].
      intros H3. congruence. }
  erewrite (for_of_literals G I A input (st_heap st) (Some c) IOrdinary [] L1 []);
    [| done | done | by apply Forall_and].
  rewrite fold_own_set_fresh by done.
  cbn [for_of]. unfold mbind at 1, M_bind at 1.
  unfold Strict.context_entry. sunfold.
  rewrite instanceof_app, Hi by done. sunfold.
  rewrite assign_heir_refused; try done.
  apply own_lookup_None. intros Hin. apply (Hfresh _ Hin). left.
Qed.

(** *** The properties of the context extraction, with attributes *)

Lemma registered_not_member {X} (m : gmap string X) id x :
  m !! id = Some x → Strict.registry_get m id ≠ Strict.Member.
Proof. unfold Strict.registry_get. by intros ->. Qed.

(** C2, as the code has it.  A context with exactly one side input, under
    key [k], whose dataset resolves in the registry, and whose keys can be
    assigned through the copy (none is read-only on the context or up its
    chain), as [sideInputId] can through a copy of the parameter: the
    descriptor gains the one input ["side." + k] holding the side
    dataset's id, the side-input mapping is the single entry ["side." + k]
    whose access pattern urn is the accessor's [accessPattern], and the
    rewritten context holds under [k] a copy, distinct from the parameter
    and inheriting from it, whose [sideInputId] is ["side." + k]. *)
Theorem single_side_input_expansion input (c : nat) o st L1 k (p : nat) L2
    sid mid mpc spc ws wfn pat :
  heap_wf (st_heap st) → Strict.attributes_wf a (st_heap st) →
  st_heap st !! c = Some o →
  typeof (st_heap st) (VRef c) = "object" →
  own_entries (props o) = L1 ++ (k, VRef p) :: L2 →
  Forall (λ e, instanceof (st_heap st) e.2 SideInputParam_prototype = false)
         (L1 ++ L2) →
  instanceof (st_heap st) (VRef p) SideInputParam_prototype = true →
  Forall (λ e, Strict.writable a (st_heap st) c e.1 = true) (props o) →
  Strict.writable a (st_heap st) p "sideInputId" = true →
  allocated (length (st_heap st)) input →
  getId (st_heap st) (get (st_heap st) p "pcoll") = Ok sid →
  getId (st_heap st) input = Ok mid →
  runnerApi.pcollections (components (pipeline st)) !! mid = Some mpc →
  runnerApi.pcollections (components (pipeline st)) !! sid = Some spc →
  runnerApi.windowingStrategies (components (pipeline st))
    !! runnerApi.windowingStrategyId spc = Some ws →
  runnerApi.windowFn ws = Some wfn →
  get_prop (st_heap st) (get (st_heap st) p "accessor") "accessPattern" = Ok pat →
  ∃ st' (contextCopy copy : nat) si,
    Strict.expandContext G I A a (VRef c) input st
      = (st', Ok (VRef contextCopy, {["side." +:+ k := si]}))
    ∧ runnerApi.inputs (transformProto st')
      = <["side." +:+ k := sid]> (runnerApi.inputs (transformProto st))
    ∧ (runnerApi.inputs (transformProto st) !! ("side." +:+ k) = None →
       size (runnerApi.inputs (transformProto st'))
       = S (size (runnerApi.inputs (transformProto st))))
    ∧ runnerApi.ap_urn (runnerApi.accessPattern si) = pat
    ∧ get (st_heap st') contextCopy k = VRef copy
    ∧ copy ≠ p
    ∧ st_heap st' !! copy
      = Some (Object (Some p) [("sideInputId", VString ("side." +:+ k))]
                IOrdinary)
    ∧ get (st_heap st') copy "sideInputId" = VString ("side." +:+ k).
Proof.
  intros Hwf Ha Hc Hty Hes Hlit Hinst Hwk Hws Hin Hsid Hmid Hmpc Hspc Hwsr Hwfn
    Hpat.
  rewrite strict_expandContext_agrees with (o := o); try done.
  - by eapply expandContext_single_side_input.
  - rewrite <- (own_entries_Permutation (props o)) in Hwk |- *.
    rewrite Hes in Hwk |- *.
    apply Forall_app in Hlit as [Hlit1 Hlit2].
    apply Forall_app in Hwk as [Hwk1 [Hwkk Hwk2]%Forall_cons].
    assert (Hl : ∀ Ls, Forall (λ e, instanceof (st_heap st) e.2
                               SideInputParam_prototype = false) Ls →
                 Forall (λ e, Strict.writable a (st_heap st) c e.1 = true) Ls →
                 Forall (Strict.unhindered a (components (pipeline st))
                           (st_heap st) input c) Ls).
    { intros Ls HL1 HL2. pose proof (conj HL1 HL2) as HL. apply Forall_and in HL.
      eapply Forall_impl; [exact HL|]. intros e [H1 H2]. split; [done|].
      intros H3. congruence. }
    apply Forall_app. split; [by apply Hl|].
    apply Forall_cons. split; [|by apply Hl].
    split; [done|]. intros _. exists p. simpl. split; [done|].
    split; [done|]. split; [done|]. split.
    + intros mid' E. rewrite Hmid in E. injection E as <-.
      by eapply registered_not_member.
    + intros sid' E. rewrite Hsid in E. injection E as <-.
      by eapply registered_not_member.
Qed.

(** C6, as the code has it.  A context object none of whose entries is a
    side input and whose keys can be assigned through the copy (none is
    read-only on the context or up its chain): the side-input mapping is
    empty; the rewritten context is a new object with the entries of the
    context, in the same order and with the very same values, and reads of
    any key agree with the context; the context itself, the descriptor and
    the pipeline are as before. *)
Theorem literal_context_expansion input (c : nat) o st :
  heap_wf (st_heap st) → Strict.attributes_wf a (st_heap st) →
  st_heap st !! c = Some o →
  typeof (st_heap st) (VRef c) = "object" →
  Forall (λ e, instanceof (st_heap st) e.2 SideInputParam_prototype = false)
         (props o) →
  Forall (λ e, Strict.writable a (st_heap st) c e.1 = true) (props o) →
  ∃ st' (contextCopy : nat) o',
    Strict.expandContext G I A a (VRef c) input st
      = (st', Ok (VRef contextCopy, ∅))
    ∧ contextCopy ≠ c
    ∧ st_heap st' !! contextCopy = Some o'
    ∧ entries (st_heap st') contextCopy = entries (st_heap st) c
    ∧ (∀ k v, (k, v) ∈ props o → own_lookup k (props o') = Some v)
    ∧ (∀ k, own_lookup k (props o') = own_lookup k (props o))
    ∧ (∀ k, get (st_heap st') contextCopy k = get (st_heap st) c k)
    ∧ st_heap st' !! c = Some o
    ∧ transformProto st' = transformProto st
    ∧ pipeline st' = pipeline st.
Proof.
  intros Hwf Ha Hc Hty Hlit Hwk.
  rewrite strict_expandContext_agrees with (o := o); try done.
  - by apply expandContext_literal_context.
  - pose proof (conj Hlit Hwk) as HL. apply Forall_and in HL.
    eapply Forall_impl; [exact HL|]. intros e [H1 H2]. split; [done|].
    intros H3. congruence.
Qed.

(** X4. A context object with any number of side inputs, each of which
    resolves (its [pcoll] is a dataset known to the registry with its
    windowing strategy and window function, its accessor can be read), a
    main input known to the registry, and keys that can be assigned
    through the copy, as [sideInputId] can through a copy of each
    parameter: the extraction succeeds; every literal entry reads
    unchanged through the context copy; every side-input entry under [k]
    has its specification under ["side." + k] in the side-input mapping,
    its dataset id under ["side." + k] in the descriptor's inputs, and in
    the context copy a newly allocated tagged copy of the parameter; the
    side-input mapping has no other key; and the descriptor's inputs
    change at those names only. *)
Theorem many_side_inputs_expansion input (c : nat) o st mid mpc :
  heap_wf (st_heap st) → Strict.attributes_wf a (st_heap st) →
  st_heap st !! c = Some o →
  typeof (st_heap st) (VRef c) = "object" →
  allocated (length (st_heap st)) input →
  getId (st_heap st) input = Ok mid →
  runnerApi.pcollections (components (pipeline st)) !! mid = Some mpc →
  Forall (λ e, instanceof (st_heap st) e.2 SideInputParam_prototype = true →
               is_Some (resolved_side_input G I A (components (pipeline st))
                          (st_heap st) (runnerApi.windowingStrategyId mpc) e.2))
         (props o) →
  Forall (λ e, Strict.writable a (st_heap st) c e.1 = true) (props o) →
  Forall (λ e, ∀ p : nat, e.2 = VRef p →
               instanceof (st_heap st) e.2 SideInputParam_prototype = true →
               Strict.writable a (st_heap st) p "sideInputId" = true)
         (props o) →
  ∃ st' (contextCopy : nat) sideInputs,
    Strict.expandContext G I A a (VRef c) input st
      = (st', Ok (VRef contextCopy, sideInputs))
    ∧ (∀ k v, (k, v) ∈ props o →
         instanceof (st_heap st) v SideInputParam_prototype = false →
         get (st_heap st') contextCopy k = v)
    ∧ (∀ k v, (k, v) ∈ props o →
         instanceof (st_heap st) v SideInputParam_prototype = true →
         ∃ (p : nat) sid si (copy : nat),
           v = VRef p
           ∧ resolved_side_input G I A (components (pipeline st)) (st_heap st)
               (runnerApi.windowingStrategyId mpc) v = Some (sid, si)
           ∧ sideInputs !! ("side." +:+ k) = Some si
           ∧ runnerApi.inputs (transformProto st') !! ("side." +:+ k) = Some sid
           ∧ get (st_heap st') contextCopy k = VRef copy
           ∧ length (st_heap st) < copy
           ∧ st_heap st' !! copy = Some (tagged p ("side." +:+ k)))
    ∧ (∀ t, is_Some (sideInputs !! t) →
         ∃ k v, (k, v) ∈ props o
                ∧ instanceof (st_heap st) v SideInputParam_prototype = true
                ∧ t = "side." +:+ k)
    ∧ (∀ j, (∀ k v, (k, v) ∈ props o →
               instanceof (st_heap st) v SideInputParam_prototype = true →
               j ≠ "side." +:+ k) →
         runnerApi.inputs (transformProto st') !! j
         = runnerApi.inputs (transformProto st) !! j).
Proof.
  intros Hwf Ha Hc Hty Hin Hmid Hmpc Hres Hwk Hws.
  rewrite strict_expandContext_agrees with (o := o); try done.
  - by eapply expandContext_many_side_inputs.
  - pose proof (conj Hwk Hws) as HL0. apply Forall_and in HL0.
    pose proof (conj Hres HL0) as HL. apply Forall_and in HL.
    eapply Forall_impl; [exact HL|]. intros [k v] (H1 & H2 & H3).
    cbn [fst snd] in *.
    split; [done|]. cbn [fst snd]. intros Hi.
    destruct (instanceof_true_ref _ v _ Hi) as [p Hv]. subst v.
    destruct (H1 Hi) as [[sid si] Hr].
    destruct (resolved_side_input_Some G I A _ _ _ _ _ _ Hr)
      as (spc & ws & wfn & pat & Hsid & Hspc & _).
    exists p. split; [done|]. split; [by apply H3|]. split; [done|]. split.
    + intros mid' E. rewrite Hmid in E. injection E as <-.
      by eapply registered_not_member.
    + intros sid' E. rewrite Hsid in E. injection E as <-.
      by eapply registered_not_member.
Qed.

End StrictFacts.

(** * The sample pipeline, with attributes *)

Section AttributeChecks.
Import JS JSFacts Sample Sample2 Sample3.

Ltac attributes_ok :=
  split; vm_compute; repeat (apply List.Forall_cons; [lia|]);
  apply List.Forall_nil.

(** The end-to-end example, with the parameter frozen: its own properties
    are read-only, and [sideInputId] is none of them. *)
Lemma single_side_input_expansion_witness :
  ∃ st' (contextCopy copy : nat) si,
    Strict.expandContext GLOBAL IDENTITY ASSIGN_MAX frozen_param (VRef context)
      main (start context_alloc.1 (registry fixed_windows))
    = (st', Ok (VRef contextCopy, {["side.threshold" := si]}))
    ∧ runnerApi.inputs (transformProto st')
      = <["side.threshold" := "sideId"]> {["main" := "mainId"]}
    ∧ runnerApi.ap_urn (runnerApi.accessPattern si)
      = VString "beam:side_input:iterable:v1"
    ∧ get (st_heap st') contextCopy "threshold" = VRef copy
    ∧ copy ≠ param
    ∧ get (st_heap st') copy "sideInputId" = VString "side.threshold".
Proof.
  destruct (single_side_input_expansion GLOBAL IDENTITY ASSIGN_MAX frozen_param
              main context sample_context_object
              (start context_alloc.1 (registry fixed_windows))
              [("limit", VNumber 3)] "threshold" param []
              "sideId" "mainId"
              (runnerApi.mkPCollection "W1") (runnerApi.mkPCollection "W2")
              fixed_windows
              (runnerApi.mkFunctionSpec "beam:window_fn:fixed_windows:v1" [])
              (VString "beam:side_input:iterable:v1"))
    as (st' & cc & copy & si & H1 & H2 & _ & H4 & H5 & H6 & _ & H8).
  - exact sample_heap_wf.
  - attributes_ok.
  - reflexivity.
  - reflexivity.
  - reflexivity.
  - repeat constructor.
  - reflexivity.
  - repeat constructor.
  - reflexivity.
  - simpl. lia.
  - reflexivity.
  - reflexivity.
  - vm_compute. reflexivity.
  - vm_compute. reflexivity.
  - vm_compute. reflexivity.
  - reflexivity.
  - reflexivity.
  - exists st', cc, copy, si. repeat split; assumption.
Defined.

(** The claim of C2 fails on the sample context once its key
    [threshold] is read-only: the side input is registered, then the
    assignment to the copy throws, and the copy holds no tagged copy, so
    that a read of [threshold] through it finds the parameter itself.  It
    fails as well when the parameter was frozen with a [sideInputId] of its
    own: the tagging throws. *)
Lemma read_only_key_counterexample :
  Strict.expandContext GLOBAL IDENTITY ASSIGN_MAX locked_threshold
    (VRef context) main (start context_alloc.1 (registry fixed_windows))
  = (mkState
       (context_alloc.1 ++
          [Object (Some context) [("limit", VNumber 3)] IOrdinary;
           Object (Some param) [("sideInputId", VString "side.threshold")]
             IOrdinary])
       (mkPipeline pipeline_loc (registry fixed_windows) 0)
       (runnerApi.mkPTransform
          (<["side.threshold" := "sideId"]> {["main" := "mainId"]}) ∅ None),
     Throw TypeError)
  ∧ get (context_alloc.1 ++
           [Object (Some context) [("limit", VNumber 3)] IOrdinary;
            Object (Some param) [("sideInputId", VString "side.threshold")]
              IOrdinary])
      (length context_alloc.1) "threshold" = VRef param
  ∧ (Strict.expandInternal GLOBAL IDENTITY ASSIGN_MAX EXPORT toBinary
       locked_threshold double (VRef context) main
       (start context_alloc.1 (registry fixed_windows))).2
    = Throw TypeError
  ∧ Strict.expandContext GLOBAL IDENTITY ASSIGN_MAX frozen_preset_param
      (VRef preset_alloc.2) main
      (start preset_alloc.1 (registry fixed_windows))
    = (mkState
         (preset_alloc.1 ++ [Object (Some preset_alloc.2) [] IOrdinary])
         (mkPipeline pipeline_loc (registry fixed_windows) 0)
         (runnerApi.mkPTransform
            (<["side.threshold" := "sideId"]> {["main" := "mainId"]}) ∅ None),
       Throw TypeError).
Proof. vm_compute. repeat split; reflexivity. Qed.

(** The sample context of literals, with the accessor object of the
    pipeline frozen: nothing on the chain of the context is. *)
Lemma literal_context_expansion_witness :
  ∃ st' (contextCopy : nat),
    Strict.expandContext GLOBAL IDENTITY ASSIGN_MAX frozen_accessor
      (VRef literal_context_alloc.2) main
      (start literal_context_alloc.1 (registry fixed_windows))
    = (st', Ok (VRef contextCopy, ∅))
    ∧ entries (st_heap st') contextCopy
      = [("7", VBool true); ("limit", VNumber 3); ("label", VString "x")]
    ∧ get (st_heap st') contextCopy "label" = VString "x"
    ∧ transformProto st' = descriptor.
Proof.
  destruct (literal_context_expansion GLOBAL IDENTITY ASSIGN_MAX
              frozen_accessor main literal_context_alloc.2
              (Object (Some Object_prototype)
                 [("limit", VNumber 3); ("label", VString "x");
                  ("7", VBool true)] IOrdinary)
              (start literal_context_alloc.1 (registry fixed_windows)))
    as (st' & cc & o' & H1 & _ & _ & H4 & _ & _ & H7 & _ & H9 & _).
  - exact sample_literal_heap_wf.
  - attributes_ok.
  - reflexivity.
  - reflexivity.
  - repeat constructor.
  - repeat constructor.
  - exists st', cc. split; [exact H1|]. split; [by rewrite H4|].
    split; [by rewrite H7 | exact H9].
Defined.

(** The claim of C6 fails on the frozen context
    [Object.freeze({ limit: 3, label: "x", 7: true })], which holds no side
    input: the first assignment to the copy throws. *)
Lemma frozen_context_counterexample :
  forallb (λ e, negb (instanceof literal_context_alloc.1 e.2
                        SideInputParam_prototype))
    (entries literal_context_alloc.1 literal_context_alloc.2) = true
  ∧ Strict.expandContext GLOBAL IDENTITY ASSIGN_MAX frozen_literals
      (VRef literal_context_alloc.2) main
      (start literal_context_alloc.1 (registry fixed_windows))
    = (start (literal_context_alloc.1 ++
                [Object (Some literal_context_alloc.2) [] IOrdinary])
         (registry fixed_windows),
       Throw TypeError)
  ∧ (Strict.expandInternal GLOBAL IDENTITY ASSIGN_MAX EXPORT toBinary
       frozen_literals double (VRef literal_context_alloc.2) main
       (start literal_context_alloc.1 (registry fixed_windows))).2
    = Throw TypeError.
Proof. vm_compute. repeat split; reflexivity. Qed.

(** The sample context with two side inputs, the accessor object frozen:
    [weights] over the main dataset gets the identity mapping, [threshold]
    over the side dataset the assign-max-timestamp mapping. *)
Lemma many_side_inputs_expansion_witness :
  ∃ st' (contextCopy : nat) sideInputs si1 si2,
    Strict.expandContext GLOBAL IDENTITY ASSIGN_MAX frozen_accessor
      (VRef both_context_alloc.2) main
      (start both_context_alloc.1 (registry fixed_windows))
    = (st', Ok (VRef contextCopy, sideInputs))
    ∧ sideInputs !! "side.weights" = Some si1
    ∧ runnerApi.wm_urn (runnerApi.windowMappingFn si1) = IDENTITY
    ∧ sideInputs !! "side.threshold" = Some si2
    ∧ runnerApi.wm_urn (runnerApi.windowMappingFn si2) = ASSIGN_MAX
    ∧ runnerApi.inputs (transformProto st') !! "side.weights" = Some "mainId"
    ∧ runnerApi.inputs (transformProto st') !! "side.threshold" = Some "sideId"
    ∧ runnerApi.inputs (transformProto st') !! "main" = Some "mainId"
    ∧ get (st_heap st') contextCopy "limit" = VNumber 3.
Proof.
  destruct (many_side_inputs_expansion GLOBAL IDENTITY ASSIGN_MAX
              frozen_accessor main
              both_context_alloc.2 both_context_object
              (start both_context_alloc.1 (registry fixed_windows))
              "mainId" (runnerApi.mkPCollection "W1"))
    as (st' & cc & sis & H1 & Hlit & Hside & _ & Hins).
  - exact both_heap_wf.
  - attributes_ok.
  - reflexivity.
  - reflexivity.
  - simpl. lia.
  - reflexivity.
  - vm_compute. reflexivity.
  - cbv [both_context_object props].
    repeat (apply List.Forall_cons;
              [intros Hi; first [by vm_compute in Hi | vm_compute; by eexists]|]).
    apply List.Forall_nil.
  - repeat constructor.
  - cbv [both_context_object props].
    repeat (apply List.Forall_cons;
              [intros q Hq Hi; cbn [snd] in Hq;
               first [discriminate Hq | by injection Hq as <-]|]).
    apply List.Forall_nil.
  - destruct (Hside "weights" (VRef weights)
                ltac:(apply list_elem_of_here) eq_refl)
      as (p1 & sid1 & si1 & c1 & _ & R1 & S1 & I1 & _).
    destruct (Hside "threshold" (VRef param)
                ltac:(do 2 apply list_elem_of_further; apply list_elem_of_here)
                eq_refl)
      as (p2 & sid2 & si2 & c2 & _ & R2 & S2 & I2 & _).
    vm_compute in R1. injection R1 as <- <-.
    vm_compute in R2. injection R2 as <- <-.
    eexists st', cc, sis, _, _. split; [exact H1|].
    split; [exact S1|]. split; [reflexivity|].
    split; [exact S2|]. split; [reflexivity|].
    split; [exact I1|]. split; [exact I2|]. split.
    + rewrite Hins; [reflexivity|].
      intros k v _ _. cbv [String.append]. discriminate.
    + apply (Hlit "limit" (VNumber 3));
        [apply list_elem_of_further, list_elem_of_here | reflexivity].
Defined.

(** The DoFn [scale] of the sample, which has a name and a default
    context, exported under the empty name, and the DoFn [double] exported
    under a name that is no identifier. *)
Lemma exportName_is_not_checked_witness :
  (∃ h' t' st2' out sideInputs,
     localParDo GLOBAL IDENTITY ASSIGN_MAX EXPORT toBinary
       (with_exportName "" scale) (VRef caller_alloc.2) caller_alloc.1
     = (h', t')
     ∧ expand t' main (start h' (registry fixed_windows)) = (st2', Ok out)
     ∧ runnerApi.spec (transformProto st2')
       = Some (runnerApi.mkFunctionSpec "beam:transform:pardo:v1"
                 (toBinary
                    (runnerApi.mkParDoPayload
                       (runnerApi.mkFunctionSpec EXPORT []) sideInputs))))
  ∧ (∃ h' t' st2' out sideInputs,
       localParDo GLOBAL IDENTITY ASSIGN_MAX EXPORT toBinary
         (with_exportName "1 é" double) (VRef context) context_alloc.1
       = (h', t')
       ∧ expand t' main (start h' (registry fixed_windows)) = (st2', Ok out)
       ∧ runnerApi.spec (transformProto st2')
         = Some (runnerApi.mkFunctionSpec "beam:transform:pardo:v1"
                   (toBinary
                      (runnerApi.mkParDoPayload
                         (runnerApi.mkFunctionSpec EXPORT
                            ["1"; " "; "195"; "169"]%byte)
                         sideInputs)))).
Proof.
  split.
  - destruct (exportName_is_not_checked GLOBAL IDENTITY ASSIGN_MAX EXPORT
                toBinary scale "" (VRef caller_alloc.2) caller_alloc.1 main
                (start (localParDo GLOBAL IDENTITY ASSIGN_MAX EXPORT toBinary
                          scale (VRef caller_alloc.2) caller_alloc.1).1
                   (registry fixed_windows)))
      as (h' & t & t' & E1 & E2 & Hm & _ & Hempty).
    assert (Hh : (localParDo GLOBAL IDENTITY ASSIGN_MAX EXPORT toBinary
                    scale (VRef caller_alloc.2) caller_alloc.1).1 = h')
      by (by rewrite E1).
    rewrite Hh in Hm.
    destruct (expand t main (start h' (registry fixed_windows)))
      as [st2 [out|e]] eqn:Ex.
    + destruct Hm as (st2' & sis & Ex' & _ & Hs' & _).
      rewrite Hempty in Hs'.
      by exists h', t', st2', out, sis.
    + exfalso. rewrite <- Hh in Ex.
      assert (Ht : t = (localParDo GLOBAL IDENTITY ASSIGN_MAX EXPORT toBinary
                          scale (VRef caller_alloc.2) caller_alloc.1).2)
        by (by rewrite E1).
      rewrite Ht in Ex. vm_compute in Ex. discriminate Ex.
  - destruct (exportName_is_not_checked GLOBAL IDENTITY ASSIGN_MAX EXPORT
                toBinary double "1 é" (VRef context) context_alloc.1 main
                (start (localParDo GLOBAL IDENTITY ASSIGN_MAX EXPORT toBinary
                          double (VRef context) context_alloc.1).1
                   (registry fixed_windows)))
      as (h' & t & t' & E1 & E2 & Hm & Hbytes & _).
    assert (Hh : (localParDo GLOBAL IDENTITY ASSIGN_MAX EXPORT toBinary
                    double (VRef context) context_alloc.1).1 = h')
      by (by rewrite E1).
    rewrite Hh in Hm.
    destruct (expand t main (start h' (registry fixed_windows)))
      as [st2 [out|e]] eqn:Ex.
    + destruct Hm as (st2' & sis & Ex' & _ & Hs' & _).
      rewrite (Hbytes eq_refl) in Hs'.
      by exists h', t', st2', out, sis.
    + exfalso. rewrite <- Hh in Ex.
      assert (Ht : t = (localParDo GLOBAL IDENTITY ASSIGN_MAX EXPORT toBinary
                          double (VRef context) context_alloc.1).2)
        by (by rewrite E1).
      rewrite Ht in Ex. vm_compute in Ex. discriminate Ex.
Defined.

End AttributeChecks.
